(** * Beads Slack notifier: change detection and notification dispatch

    A shallow embedding of [slack/beads_watcher_template.py] and
    [slack/notifier.py], followed by the properties of the sanitizer, the
    rate limiter, the webhook resolution, the diff engine and the
    dispatcher.

    Modelling conventions.
    - A Python [str] is a [string]; [len] is [String.length]; characters are
      the code points below 256.
    - A timestamp of the clock is an integer ([Z]) number of seconds.
    - A [dict] that is only looked up by key is a [gmap]; the dict returned
      by [parse_issues_jsonl], whose iteration order fixes the order of the
      notifications, is a list in insertion order.
    - The notifier calls [notify_*] made by a scan are returned as a list of
      events; the transport ([requests.post]) is an outcome handed to
      [send], and the records it logs are returned with its result.
    - Values read from JSON and YAML have the types the code expects of
      them; what the files and the environment hold is an argument. *)

From Stdlib Require Import ZArith Ascii String.
From stdpp Require Import base option list gmap strings fin_maps pretty.

Local Open Scope Z_scope.

(* stdpp's solvers clear hypotheses by name; the notice is of no interest. *)
Set Warnings "-clear-no-such-hyp".

(* ===================================================================== *)
(** * Part I: the embedding                                               *)
(* ===================================================================== *)

(** ** Text helpers (Python string primitives used by the source) *)

Module Text.

(** [s[:n]] for [n >= 0]. *)
Fixpoint take (n : nat) (s : string) : string :=
  match n, s with
  | S n', String c s' => String c (take n' s')
  | _, _ => EmptyString
  end.

(** [s[n:]] for [n >= 0]. *)
Fixpoint drop (n : nat) (s : string) : string :=
  match n, s with
  | S n', String _ s' => drop n' s'
  | _, _ => s
  end.

(** [s[:k]] with Python's treatment of a negative bound: it counts from
    the end and is clamped at the start of the string. *)
Definition slice_to (k : Z) (s : string) : string :=
  if 0 <=? k then take (Z.to_nat k) s
  else take (Z.to_nat (Z.of_nat (String.length s) + k)) s.

(** [s.startswith(p)] *)
Fixpoint startswith (p s : string) : bool :=
  match p, s with
  | EmptyString, _ => true
  | String a p', String b s' => Ascii.eqb a b && startswith p' s'
  | String _ _, EmptyString => false
  end.

(** [s.replace(c, r)] for a pattern [c] of one character. *)
Fixpoint replace_char (c : ascii) (r : string) (s : string) : string :=
  match s with
  | EmptyString => EmptyString
  | String x s' =>
      if Ascii.eqb x c then r +:+ replace_char c r s'
      else String x (replace_char c r s')
  end.

(** [s.replace(old, new)] for a pattern [old] that is not empty;
    [skip] counts the characters of the current occurrence still to
    drop. *)
Fixpoint replace_from (skip : nat) (old new : string) (s : string) : string :=
  match s with
  | EmptyString => EmptyString
  | String x s' =>
      match skip with
      | S k => replace_from k old new s'
      | O =>
          if startswith old (String x s')
          then new +:+ replace_from (String.length old - 1) old new s'
          else String x (replace_from 0 old new s')
      end
  end.

Definition replace (old new s : string) : string := replace_from 0 old new s.

(** [re.sub('[...]', '', s)] for a character class given as a test. *)
Fixpoint remove_chars (p : ascii -> bool) (s : string) : string :=
  match s with
  | EmptyString => EmptyString
  | String x s' =>
      if p x then remove_chars p s' else String x (remove_chars p s')
  end.

(** [p in s] *)
Fixpoint contains (p s : string) : bool :=
  startswith p s ||
  match s with
  | EmptyString => false
  | String _ s' => contains p s'
  end.

(** [s.endswith(p)] *)
Definition endswith (p s : string) : bool :=
  (String.length p <=? String.length s)%nat &&
  String.eqb (drop (String.length s - String.length p)%nat s) p.

(** Whitespace of [str.strip()], [str.isspace()] and the regex class
    [\s] on [str] patterns, for code points below 256. *)
Definition is_space (c : ascii) : bool :=
  let n := N_of_ascii c in
  ((9 <=? n) && (n <=? 13) || (28 <=? n) && (n <=? 32)
   || (n =? 133) || (n =? 160))%N.

Fixpoint lstrip (s : string) : string :=
  match s with
  | String c s' => if is_space c then lstrip s' else s
  | EmptyString => EmptyString
  end.

(** [rstrip] keeps a character when it is not a space or when something
    is kept after it. *)
Fixpoint rstrip (s : string) : string :=
  match s with
  | EmptyString => EmptyString
  | String c s' =>
      match rstrip s' with
      | EmptyString => if is_space c then EmptyString else String c EmptyString
      | r => String c r
      end
  end.

(** [s.strip()] *)
Definition strip (s : string) : string := rstrip (lstrip s).

(** The longest prefix of [s] whose characters satisfy [p], and the rest. *)
Fixpoint span (p : ascii -> bool) (s : string) : string * string :=
  match s with
  | String c s' =>
      if p c then let '(a, b) := span p s' in (String c a, b)
      else (EmptyString, s)
  | EmptyString => (EmptyString, EmptyString)
  end.

(** [sep.join(l)] *)
Fixpoint join (sep : string) (l : list string) : string :=
  match l with
  | [] => EmptyString
  | [x] => x
  | x :: l' => x +:+ sep +:+ join sep l'
  end.

(** Truthiness of a [str]. *)
Definition truthy (s : string) : bool :=
  match s with EmptyString => false | _ => true end.

End Text.

(** ** Sanitizer

    [sanitize_for_slack], beads_watcher_template.py lines 130-148 and,
    with the same body, notifier.py lines 94-107. *)

(** The class [[\x00-\x08\x0b\x0c\x0e-\x1f\x7f]]. *)
Definition is_stripped_control (c : ascii) : bool :=
  let n := N_of_ascii c in
  ((n <=? 8) || (n =? 11) || (n =? 12) || (14 <=? n) && (n <=? 31)
   || (n =? 127))%N.

Definition sanitize_for_slack (text : string) (max_length : Z) : string :=
  if negb (Text.truthy text) then ""%string
  else
    let text :=
      if Z.of_nat (String.length text) >? max_length
      then Text.slice_to (max_length - 3) text +:+ "..."
      else text in
    let text := Text.replace_char "&"%char "&amp;" text in
    let text := Text.replace_char "<"%char "&lt;" text in
    let text := Text.replace_char ">"%char "&gt;" text in
    Text.remove_chars is_stripped_control text.

(** [max_length: int = 3000] *)
Definition sanitize_default (text : string) : string :=
  sanitize_for_slack text 3000.

(** Properties of a sanitized text. *)

(** No raw [<] or [>], and every [&] starts one of the three entities. *)
Fixpoint well_escaped (s : string) : bool :=
  match s with
  | EmptyString => true
  | String c s' =>
      if Ascii.eqb c "<"%char || Ascii.eqb c ">"%char then false
      else if Ascii.eqb c "&"%char
      then (Text.startswith "amp;" s' || Text.startswith "lt;" s'
            || Text.startswith "gt;" s') && well_escaped s'
      else well_escaped s'
  end.

Fixpoint no_stripped_control (s : string) : bool :=
  match s with
  | EmptyString => true
  | String c s' => negb (is_stripped_control c) && no_stripped_control s'
  end.

(** The text has one of the three markup characters. *)
Fixpoint has_markup (s : string) : bool :=
  match s with
  | EmptyString => false
  | String c s' =>
      Ascii.eqb c "&"%char || Ascii.eqb c "<"%char || Ascii.eqb c ">"%char
      || has_markup s'
  end.

(** What the three replacements and the removal make of one character,
    and of a text: the form in which the sanitizer is reasoned about. *)
Definition escape_char (c : ascii) : string :=
  if Ascii.eqb c "&"%char then "&amp;"%string
  else if Ascii.eqb c "<"%char then "&lt;"%string
  else if Ascii.eqb c ">"%char then "&gt;"%string
  else if is_stripped_control c then ""%string
  else String c EmptyString.

Fixpoint escape (s : string) : string :=
  match s with
  | EmptyString => EmptyString
  | String c s' => escape_char c +:+ escape s'
  end.

(** The first step of the sanitizer. *)
Definition truncate (text : string) (max_length : Z) : string :=
  if Z.of_nat (String.length text) >? max_length
  then Text.slice_to (max_length - 3) text +:+ "..."
  else text.

(** The postcondition as the specification words it: at most [n]
    characters, markup escaped, control characters gone. *)
Definition sanitized_within (text : string) (n : Z) : Prop :=
  Z.of_nat (String.length (sanitize_for_slack text n)) <= n
  ∧ well_escaped (sanitize_for_slack text n) = true
  ∧ no_stripped_control (sanitize_for_slack text n) = true.

(** [p] occurs in [s]. *)
Definition occurs_in (p s : string) : Prop :=
  ∃ before after, s = before +:+ p +:+ after.

(** ** Log redaction

    [SensitiveDataFilter] (beads_watcher_template.py lines 73-88,
    notifier.py lines 56-71) and the [re.sub] of [send], which use the same
    pattern. *)

Module SensitiveDataFilter.

Definition webhook_prefix : string := "https://hooks.slack.com/services/".

(** The class [[A-Za-z0-9/]]. *)
Definition is_token_char (c : ascii) : bool :=
  let n := N_of_ascii c in
  ((65 <=? n) && (n <=? 90) || (97 <=? n) && (n <=? 122)
   || (48 <=? n) && (n <=? 57) || (n =? 47))%N.

(** Length of the match of
    [https://hooks\.slack\.com/services/[A-Za-z0-9/]+] at the start of
    [s], if there is one (the class is matched greedily). *)
Definition webhook_match (s : string) : option nat :=
  if Text.startswith webhook_prefix s then
    match fst (Text.span is_token_char
                 (Text.drop (String.length webhook_prefix) s)) with
    | EmptyString => None
    | tok => Some (String.length webhook_prefix + String.length tok)%nat
    end
  else None.

(** [WEBHOOK_PATTERN.sub(repl, s)]: leftmost matches, not overlapping.
    [skip] counts the characters of the current match still to drop. *)
Fixpoint sub_from (skip : nat) (repl : string) (s : string) : string :=
  match s with
  | EmptyString => EmptyString
  | String c s' =>
      match skip with
      | S k => sub_from k repl s'
      | O =>
          match webhook_match (String c s') with
          | Some n => repl +:+ sub_from (n - 1) repl s'
          | None => String c (sub_from 0 repl s')
          end
      end
  end.

Definition sub (repl s : string) : string := sub_from 0 repl s.

(** [SensitiveDataFilter.filter] on a formatted message. *)
Definition filter (msg : string) : string := sub "[WEBHOOK_URL_MASKED]" msg.

(** No text matching the pattern starts anywhere in [out]. *)
Definition clean (out : string) : Prop :=
  ∀ before after, out = before +:+ after → webhook_match after = None.

(** [a] is one of the characters of [s]. *)
Fixpoint has_char (a : ascii) (s : string) : bool :=
  match s with
  | EmptyString => false
  | String c s' => Ascii.eqb c a || has_char a s'
  end.

End SensitiveDataFilter.

Inductive LogLevel := INFO | WARNING | ERROR.

(** A record emitted through [logger], whose filter masks the message. *)
Definition log (lvl : LogLevel) (msg : string) : LogLevel * string :=
  (lvl, SensitiveDataFilter.filter msg).

(** ** Rate limiter

    [RateLimiter], beads_watcher_template.py lines 151-182 and notifier.py
    lines 126-152; the two differ in the clock they read only. *)

Definition RATE_LIMIT_MAX : Z := 30.
Definition RATE_LIMIT_WINDOW : Z := 60.

Module RateLimiter.

(** [requests] is the deque, oldest timestamp first. *)
Record t := mk {
  max_requests : Z;
  window_seconds : Z;
  requests : list Z
}.

Definition init (max_requests window_seconds : Z) : t :=
  mk max_requests window_seconds [].

Definition default : t := init RATE_LIMIT_MAX RATE_LIMIT_WINDOW.

(** [while self.requests and self.requests[0] < now - window: popleft()] *)
Fixpoint prune (now window : Z) (q : list Z) : list Z :=
  match q with
  | t0 :: q' => if t0 <? now - window then prune now window q' else q
  | [] => []
  end.

(** [allow()] at clock reading [now]. *)
Definition allow (now : Z) (rl : t) : bool * t :=
  let q := prune now (window_seconds rl) (requests rl) in
  if Z.of_nat (length q) >=? max_requests rl
  then (false, mk (max_requests rl) (window_seconds rl) q)
  else (true, mk (max_requests rl) (window_seconds rl) (q ++ [now])).

Record stats := mk_stats {
  requests_in_window : Z;
  stats_max_requests : Z;
  stats_window_seconds : Z
}.

Definition get_stats (now : Z) (rl : t) : stats * t :=
  let q := prune now (window_seconds rl) (requests rl) in
  (mk_stats (Z.of_nat (length q)) (max_requests rl) (window_seconds rl),
   mk (max_requests rl) (window_seconds rl) q).

(** A run of [allow()] calls at the given clock readings: the answers,
    and the limiter afterwards. *)
Fixpoint run (nows : list Z) (rl : t) : list bool * t :=
  match nows with
  | [] => ([], rl)
  | now :: nows' =>
      let '(b, rl1) := allow now rl in
      let '(bs, rl2) := run nows' rl1 in
      (b :: bs, rl2)
  end.

(** The clock readings of the calls that were admitted. *)
Fixpoint admitted (nows : list Z) (answers : list bool) : list Z :=
  match nows, answers with
  | now :: nows', b :: answers' =>
      if b then now :: admitted nows' answers' else admitted nows' answers'
  | _, _ => []
  end.

(** How many of the timestamps [l] lie in the window [[lo, lo + w]]. *)
Definition count_in_window (lo w : Z) (l : list Z) : nat :=
  length (List.filter (fun x => (lo <=? x) && (x <=? lo + w)) l).

(** A clock that never runs backwards. *)
Fixpoint monotonic_from (t0 : Z) (nows : list Z) : Prop :=
  match nows with
  | [] => True
  | now :: nows' => t0 <= now /\ monotonic_from now nows'
  end.

Definition monotonic (nows : list Z) : Prop :=
  match nows with
  | [] => True
  | now :: nows' => monotonic_from now nows'
  end.

(** What the limiter guarantees about the admissions [history] made up to
    the clock reading [t0]. *)
Definition limiter_inv (rl : t) (history : list Z) (t0 : Z) : Prop :=
  (∃ dropped, history = dropped ++ requests rl
              ∧ Forall (λ x, x < t0 - window_seconds rl) dropped)
  ∧ Z.of_nat (length (requests rl)) <= Z.max 0 (max_requests rl)
  ∧ ∀ lo, Z.of_nat (count_in_window lo (window_seconds rl) history)
          <= Z.max 0 (max_requests rl).

End RateLimiter.

(** ** Configuration

    [SlackConfig.load] (beads_watcher_template.py lines 196-259,
    notifier.py lines 166-222) and [get_webhook_url] (notifier.py lines
    274-305). The files and the environment they read are a [world]. *)

(** What the resolution finds at a path. *)
Inductive FileRead (A : Type) : Type :=
| Absent                 (* [path.exists()] is false *)
| Failing                (* the file exists, reading or parsing it raises *)
| Holds (content : A).   (* the file exists and is read *)
Arguments Absent {A}.
Arguments Failing {A}.
Arguments Holds {A} content.

Module Config.

(** The value under [notify_on] in the YAML mapping. *)
Inductive NotifyOn :=
| NotifyOnDict (d : gmap string bool)
| NotifyOnList (l : list string)
| NotifyOnOther.

(** The YAML mapping of the config file: the keys the code reads, [None]
    for a missing key. The document is taken to be a mapping and its
    entries to have the types the code expects (strings, and a dict of
    booleans or a list of strings under [notify_on]). *)
Record data := mk_data {
  data_webhook_url : option string;
  data_channel : option string;
  data_notify_on : option NotifyOn
}.

(** Everything the resolution reads. *)
Record world := mk_world {
  secrets_file : FileRead string;
  config_file : FileRead data;
  environ : gmap string string
}.

Record SlackConfig := mk {
  webhook_url : string;
  channel : option string;
  notify_created : bool;
  notify_in_progress : bool;
  notify_closed : bool;
  notify_agent_complete : bool;
  notify_review_request : bool
}.

(** The dataclass defaults, [cls()]. *)
Definition defaults : SlackConfig := mk "" None true true true true true.

Definition with_webhook_url (u : string) (c : SlackConfig) : SlackConfig :=
  mk u (channel c) (notify_created c) (notify_in_progress c)
     (notify_closed c) (notify_agent_complete c) (notify_review_request c).

(** [os.environ.get(name, "")] *)
Definition getenv (env : gmap string string) (name : string) : string :=
  default ""%string (env !! name).

(** [webhook_url[2:-1]] *)
Definition placeholder_name (s : string) : string :=
  Text.take (String.length s - 1 - 2)%nat (Text.drop 2 s).

Definition is_placeholder (s : string) : bool :=
  Text.startswith "${" s && Text.endswith "}" s.

(** The [webhook_url] entry of the config file, a placeholder replaced by
    the variable it names. *)
Definition config_webhook (env : gmap string string) (d : data) : string :=
  let webhook_url := default ""%string (data_webhook_url d) in
  if is_placeholder webhook_url
  then getenv env (placeholder_name webhook_url)
  else webhook_url.

Definition dict_get (d : gmap string bool) (k : string) : bool :=
  default true (d !! k).

Definition list_has (l : list string) (k : string) : bool :=
  bool_decide (k ∈ l).

(** [SlackConfig.load], the same in both modules. *)
Definition load (w : world) : SlackConfig :=
  let config := defaults in
  let config :=
    match secrets_file w with
    | Holds content =>
        let webhook_url := Text.strip content in
        if Text.truthy webhook_url then with_webhook_url webhook_url config
        else config
    | _ => config
    end in
  let fall_back (config : SlackConfig) : SlackConfig :=
    if negb (Text.truthy (webhook_url config))
    then with_webhook_url (getenv (environ w) "SLACK_WEBHOOK_URL") config
    else config in
  match config_file w with
  | Absent => fall_back config
  | Failing => config
  | Holds d =>
      let url :=
        if negb (Text.truthy (webhook_url config))
        then config_webhook (environ w) d
        else webhook_url config in
      let config :=
        match default (NotifyOnDict ∅) (data_notify_on d) with
        | NotifyOnDict n =>
            mk url (data_channel d) (dict_get n "created")
               (dict_get n "in_progress") (dict_get n "closed")
               (dict_get n "agent_complete") (dict_get n "review_request")
        | NotifyOnList l =>
            mk url (data_channel d) (list_has l "created")
               (list_has l "in_progress") (list_has l "closed")
               (list_has l "agent_complete") (list_has l "review_request")
        | NotifyOnOther =>
            mk url (data_channel d) (notify_created config)
               (notify_in_progress config) (notify_closed config)
               (notify_agent_complete config) (notify_review_request config)
        end in
      fall_back config
  end.

(** [get_webhook_url] of [notifier.py]. *)
Definition get_webhook_url (w : world) : option string :=
  let from_config : option string :=
    match config_file w with
    | Holds d =>
        let webhook_url := default ""%string (data_webhook_url d) in
        if is_placeholder webhook_url
        then Some (getenv (environ w) (placeholder_name webhook_url))
        else if Text.truthy webhook_url then Some webhook_url else None
    | _ => None
    end in
  let from_env : option string :=
    match environ w !! "SLACK_WEBHOOK_URL"%string with
    | Some env_url => if Text.truthy env_url then Some env_url else from_config
    | None => from_config
    end in
  match secrets_file w with
  | Holds content =>
      let webhook_url := Text.strip content in
      if Text.truthy webhook_url && negb (Text.startswith "#" webhook_url)
      then Some webhook_url
      else from_env
  | _ => from_env
  end.

(** The precedence the documentation states: the secret file, then the
    config file, then the plain environment variable. *)
Definition documented_precedence (w : world) : string :=
  let secret :=
    match secrets_file w with
    | Holds content => Text.strip content
    | _ => ""%string
    end in
  if Text.truthy secret then secret
  else
    let from_config :=
      match config_file w with
      | Holds d => config_webhook (environ w) d
      | _ => ""%string
      end in
    if Text.truthy from_config then from_config
    else getenv (environ w) "SLACK_WEBHOOK_URL".

End Config.

(** ** Issues

    [Issue], beads_watcher_template.py lines 262-309. *)

Module Issue.

(** The JSON object of one line of the store: the keys [from_dict] reads,
    [None] for a missing key, with values of the types the dataclass
    declares. A comment is its ["text"] entry ([""] when it has none). *)
Record dict := mk_dict {
  d_id : option string;
  d_title : option string;
  d_status : option string;
  d_priority : option Z;
  d_issue_type : option string;
  d_owner : option string;
  d_assignee : option string;
  d_created_at : option string;
  d_updated_at : option string;
  d_closed_at : option string;
  d_close_reason : option string;
  d_comments : option (list string)
}.

Record t := mk {
  id : string;
  title : string;
  status : string;
  priority : Z;
  issue_type : string;
  owner : string;
  assignee : option string;
  created_at : option string;
  updated_at : option string;
  closed_at : option string;
  close_reason : option string;
  comments : list string
}.

Definition from_dict (data : dict) : t :=
  mk (default ""%string (d_id data))
     (default ""%string (d_title data))
     (default "open"%string (d_status data))
     (default 2 (d_priority data))
     (default "task"%string (d_issue_type data))
     (default ""%string (d_owner data))
     (d_assignee data)
     (d_created_at data)
     (d_updated_at data)
     (d_closed_at data)
     (d_close_reason data)
     (default [] (d_comments data)).

(** Group 1 of a match of [@assigned\s+(\S+)] starting at the first
    character of [s]. *)
Definition assigned_match (s : string) : option string :=
  if Text.startswith "@assigned" s then
    let '(ws, rest) := Text.span Text.is_space (Text.drop 9 s) in
    match ws with
    | EmptyString => None
    | _ =>
        match fst (Text.span (fun c => negb (Text.is_space c)) rest) with
        | EmptyString => None
        | token => Some token
        end
    end
  else None.

(** [re.search(r"@assigned\s+(\S+)", s)]: the leftmost match. *)
Fixpoint search_assigned (s : string) : option string :=
  match assigned_match s with
  | Some token => Some token
  | None =>
      match s with
      | String _ s' => search_assigned s'
      | EmptyString => None
      end
  end.

(** The loop over [reversed(self.comments)], given the comments newest
    first. *)
Fixpoint first_assigned (newest_first : list string) : option string :=
  match newest_first with
  | [] => None
  | text :: older =>
      match search_assigned text with
      | Some token => Some token
      | None => first_assigned older
      end
  end.

Definition get_assigned_agent (self : t) : option string :=
  match assignee self with
  | Some a =>
      if Text.truthy a then Some a else first_assigned (rev (comments self))
  | None => first_assigned (rev (comments self))
  end.

End Issue.

(** ** Persistent state of the notifier

    [NotifierState], beads_watcher_template.py lines 312-368. A record of
    [previous_issues] is one that the notifier wrote: it has its four
    keys. [save] writes the two maps as they are, so the state is the
    content of the state file. *)

Module NotifierState.

(** The projection of an issue kept in [previous_issues]. *)
Record SnapshotRecord := mk_record {
  rec_id : string;
  rec_status : string;
  rec_assignee : option string;
  rec_title : string
}.

Definition snapshot (issue : Issue.t) : SnapshotRecord :=
  mk_record (Issue.id issue) (Issue.status issue) (Issue.assignee issue)
            (Issue.title issue).

Record t := mk {
  previous_issues : gmap string SnapshotRecord;
  assignee_issues : gmap string (gset string)
}.

(** The state of a first run, before any state file exists. *)
Definition empty : t := mk ∅ ∅.

Definition update_assignee_tracking
    (issue : Issue.t) (old_status : option string) (self : t) : t :=
  match Issue.get_assigned_agent issue with
  | None => self
  | Some agent =>
      let index :=
        match assignee_issues self !! agent with
        | Some _ => assignee_issues self
        | None => <[agent := ∅]> (assignee_issues self)
        end in
      let tracked := default ∅ (index !! agent) in
      if String.eqb (Issue.status issue) "closed" then
        mk (previous_issues self)
           (<[agent := tracked ∖ {[Issue.id issue]}]> index)
      else if String.eqb (Issue.status issue) "open"
              || String.eqb (Issue.status issue) "in_progress" then
        mk (previous_issues self)
           (<[agent := tracked ∪ {[Issue.id issue]}]> index)
      else mk (previous_issues self) index
  end.

Definition get_open_issues_for_assignee (agent : string) (self : t)
  : gset string :=
  default ∅ (assignee_issues self !! agent).

(** The outstanding set of [agent] holds [x]. *)
Definition tracks (self : t) (agent x : string) : Prop :=
  x ∈ get_open_issues_for_assignee agent self.

(** An item is in the set of at most one assignee. *)
Definition single_assignee (self : t) : Prop :=
  ∀ a b x, tracks self a x → tracks self b x → a = b.

End NotifierState.

(** ** The notifier: formatting and delivery

    [SlackNotifier], beads_watcher_template.py lines 371-589; [send] is
    also notifier.py lines 232-271. *)

Definition nl : string := String "010"%char EmptyString.
Definition dq : string := String "034"%char EmptyString.

Module SlackNotifier.

(** The Block Kit blocks the formatters build: a section with its mrkdwn
    text, or a context with the mrkdwn texts of its elements. *)
Inductive Block :=
| Section_ (text : string)
| Context_ (elements : list string).

(** The JSON body posted to the webhook; a key that is not set is
    [None]. *)
Record Payload := mk_payload {
  payload_text : string;
  payload_blocks : option (list Block);
  payload_channel : option string
}.

(** What [requests.post] does: it returns a response, or raises [Timeout]
    or another [RequestException] whose [str] is [str_e]. *)
Inductive Transport :=
| Response (status_code : Z)
| Timeout
| RequestException (str_e : string).

Record Sent := mk_sent {
  sent_ok : bool;                          (* the return value *)
  sent_limiter : RateLimiter.t;            (* the rate limiter afterwards *)
  sent_posted : option Payload;            (* the body posted, if any *)
  sent_logs : list (LogLevel * string)     (* the records logged *)
}.

(** [send(text, blocks)]: [now] is the clock at [allow()], [now'] the
    clock at [get_stats()], [transport] the behaviour of the post. *)
Definition send (config : Config.SlackConfig) (rate_limiter : RateLimiter.t)
    (now now' : Z) (transport : Transport)
    (text : string) (blocks : list Block) : Sent :=
  if negb (Text.truthy (Config.webhook_url config)) then
    mk_sent false rate_limiter None
      [log WARNING "No webhook URL configured - skipping notification"]
  else
    let '(allowed, rate_limiter) := RateLimiter.allow now rate_limiter in
    if negb allowed then
      let '(stats, rate_limiter) := RateLimiter.get_stats now' rate_limiter in
      mk_sent false rate_limiter None
        [log WARNING
           ("Rate limit exceeded ("
            +:+ pretty (RateLimiter.requests_in_window stats) +:+ "/"
            +:+ pretty (RateLimiter.stats_max_requests stats) +:+ " in "
            +:+ pretty (RateLimiter.stats_window_seconds stats) +:+ "s)")]
    else
      let text := sanitize_default text in
      let payload :=
        mk_payload text
          (match blocks with [] => None | _ => Some blocks end)
          (match Config.channel config with
           | Some c => if Text.truthy c then Some c else None
           | None => None
           end) in
      match transport with
      | Response status_code =>
          if status_code =? 200 then
            mk_sent true rate_limiter (Some payload)
              [log INFO ("Sent notification: " +:+ Text.take 50 text +:+ "...")]
          else
            mk_sent false rate_limiter (Some payload)
              [log ERROR ("Slack API error: HTTP " +:+ pretty status_code)]
      | Timeout =>
          mk_sent false rate_limiter (Some payload)
            [log ERROR "Slack API timeout"]
      | RequestException str_e =>
          let error_msg := SensitiveDataFilter.sub "[MASKED]" str_e in
          mk_sent false rate_limiter (Some payload)
            [log ERROR ("Failed to send Slack notification: " +:+ error_msg)]
      end.

(** The formatters return the arguments of their call of [send], or
    [None] when the notification is switched off. An agent returned by
    [get_assigned_agent] is never the empty string, so [if agent] is the
    test for [Some]. *)

Definition notify_created (config : Config.SlackConfig) (issue : Issue.t)
  : option (string * list Block) :=
  if negb (Config.notify_created config) then None
  else
    let agent := Issue.get_assigned_agent issue in
    let agent_text :=
      match agent with
      | Some a => nl +:+ "   Assigned to: " +:+ sanitize_default a
      | None => ""%string
      end in
    let priority_text := "P" +:+ pretty (Issue.priority issue) in
    let safe_title := sanitize_for_slack (Issue.title issue) 200 in
    let safe_id := sanitize_for_slack (Issue.id issue) 100 in
    let text :=
      "Issue Created: " +:+ safe_id +:+ nl +:+ "   " +:+ dq +:+ safe_title
      +:+ dq +:+ agent_text +:+ nl +:+ "   Priority: " +:+ priority_text in
    let blocks :=
      [ Section_ (":new: *Issue Created:* `" +:+ safe_id +:+ "`" +:+ nl
                  +:+ dq +:+ safe_title +:+ dq);
        Context_
          ([ "*Priority:* " +:+ priority_text;
             "*Type:* " +:+ sanitize_for_slack (Issue.issue_type issue) 50 ]
           ++ match agent with
              | Some a => [ "*Assigned to:* " +:+ sanitize_for_slack a 100 ]
              | None => []
              end) ] in
    Some (text, blocks).

Definition notify_in_progress (config : Config.SlackConfig) (issue : Issue.t)
  : option (string * list Block) :=
  if negb (Config.notify_in_progress config) then None
  else
    let agent := Issue.get_assigned_agent issue in
    let agent_text :=
      match agent with
      | Some a => nl +:+ "   Agent: " +:+ sanitize_default a
      | None => ""%string
      end in
    let safe_title := sanitize_for_slack (Issue.title issue) 200 in
    let safe_id := sanitize_for_slack (Issue.id issue) 100 in
    let text :=
      "Work Started: " +:+ safe_id +:+ nl +:+ "   " +:+ dq +:+ safe_title
      +:+ dq +:+ agent_text in
    let blocks :=
      [ Section_ (":arrow_forward: *Work Started:* `" +:+ safe_id +:+ "`"
                  +:+ nl +:+ dq +:+ safe_title +:+ dq) ]
      ++ match agent with
         | Some a => [ Context_ [ "*Agent:* " +:+ sanitize_for_slack a 100 ] ]
         | None => []
         end in
    Some (text, blocks).

(** [duration_text] is the text the formatter computes from [created_at]
    and [closed_at] with [datetime] ([""] when a timestamp is missing or
    does not parse). *)
Definition notify_closed (config : Config.SlackConfig) (issue : Issue.t)
    (duration_text : string) : option (string * list Block) :=
  if negb (Config.notify_closed config) then None
  else
    let agent := Issue.get_assigned_agent issue in
    let agent_text :=
      match agent with
      | Some a => nl +:+ "   Agent: " +:+ sanitize_default a
      | None => ""%string
      end in
    let safe_title := sanitize_for_slack (Issue.title issue) 200 in
    let safe_id := sanitize_for_slack (Issue.id issue) 100 in
    let safe_reason :=
      match Issue.close_reason issue with
      | Some r => if Text.truthy r then Some (sanitize_for_slack r 200) else None
      | None => None
      end in
    let text :=
      "Completed: " +:+ safe_id +:+ nl +:+ "   " +:+ dq +:+ safe_title
      +:+ dq +:+ duration_text +:+ agent_text in
    let context_elements :=
      (if Text.truthy duration_text
       then [ "*Duration:* "
              +:+ Text.replace "Duration: " "" (Text.strip duration_text) ]
       else [])
      ++ match agent with
         | Some a => [ "*Agent:* " +:+ sanitize_for_slack a 100 ]
         | None => []
         end in
    let blocks :=
      [ Section_ (":white_check_mark: *Completed:* `" +:+ safe_id +:+ "`"
                  +:+ nl +:+ dq +:+ safe_title +:+ dq) ]
      ++ match context_elements with
         | [] => []
         | _ => [ Context_ context_elements ]
         end
      ++ match safe_reason with
         | Some r => if Text.truthy r then [ Context_ [ "_" +:+ r +:+ "_" ] ] else []
         | None => []
         end in
    Some (text, blocks).

Definition issue_line (bullet sep : string) (i : Issue.t) : string :=
  bullet +:+ sanitize_for_slack (Issue.id i) 50 +:+ sep
  +:+ sanitize_for_slack (Issue.title i) 50.

Definition notify_agent_complete (config : Config.SlackConfig)
    (agent : string) (closed_issues : list Issue.t)
  : option (string * list Block) :=
  if negb (Config.notify_agent_complete config) then None
  else
    let safe_agent := sanitize_for_slack agent 100 in
    let n := Z.of_nat (length closed_issues) in
    let issue_list :=
      Text.join nl (map (issue_line "   - " ": ") (firstn 10 closed_issues)) in
    let issue_list :=
      if n >? 10
      then issue_list +:+ nl +:+ "   ... and " +:+ pretty (n - 10) +:+ " more"
      else issue_list in
    let text :=
      "Agent Completed All Work" +:+ nl +:+ "   Agent: " +:+ safe_agent
      +:+ nl +:+ "   Issues closed: " +:+ pretty n +:+ nl +:+ issue_list in
    let blocks :=
      [ Section_ (":tada: *Agent Completed All Work*" +:+ nl +:+ "*Agent:* "
                  +:+ safe_agent +:+ nl +:+ "*Issues closed:* " +:+ pretty n);
        Section_ (Text.join nl
                    (map (fun i => "- `" +:+ sanitize_for_slack (Issue.id i) 50
                                   +:+ "`: "
                                   +:+ sanitize_for_slack (Issue.title i) 50)
                         (firstn 5 closed_issues))) ]
      ++ (if n >? 5
          then [ Context_ [ "_...and " +:+ pretty (n - 5) +:+ " more_" ] ]
          else []) in
    Some (text, blocks).

(** A formatter followed by its [self.send(text, blocks)]. *)
Definition deliver (config : Config.SlackConfig) (rate_limiter : RateLimiter.t)
    (now now' : Z) (transport : Transport)
    (message : option (string * list Block)) : option Sent :=
  match message with
  | Some (text, blocks) =>
      Some (send config rate_limiter now now' transport text blocks)
  | None => None
  end.

(** The webhook is configured and the rate limiter admits a call at
    [now]: the conditions under which [send] reaches the post. *)
Definition can_post (config : Config.SlackConfig) (rate_limiter : RateLimiter.t)
    (now : Z) : Prop :=
  Text.truthy (Config.webhook_url config) = true
  ∧ (RateLimiter.allow now rate_limiter).1 = true.

(** The text of the body that a formatter followed by [send] hands to
    the transport; [None] when nothing is posted. *)
Definition delivered (config : Config.SlackConfig) (rate_limiter : RateLimiter.t)
    (now now' : Z) (transport : Transport)
    (message : option (string * list Block)) : option string :=
  match deliver config rate_limiter now now' transport message with
  | Some sent => payload_text <$> sent_posted sent
  | None => None
  end.




End SlackNotifier.

(** ** The watcher: parsing the store and detecting changes

    [parse_issues_jsonl] (beads_watcher_template.py lines 592-614),
    [IssueFileHandler.process_changes] (lines 643-697) and the initial load
    of [run_daemon] (lines 718-730). *)

Module Watcher.

(** One line of [issues.jsonl], by what [json.loads] makes of it. *)
Inductive Line :=
| Blank                        (* empty once stripped: skipped *)
| Malformed                    (* [JSONDecodeError]: warned, skipped *)
| NotAnObject                  (* JSON, but no object: [from_dict] raises *)
| Record_ (data : Issue.dict). (* a JSON object *)

(** The store file at the time of a scan. *)
Inductive Store :=
| NoFile                                     (* [path.exists()] is false *)
| OpenFails                                  (* [open] raises *)
| Opened (lines : list Line) (read_fails : bool).
    (* the lines read, and whether reading raises after them *)

(** [issues[issue.id] = issue] on a dict in insertion order: the key of
    an entry is the id of its issue. *)
Fixpoint dict_set (issue : Issue.t) (issues : list Issue.t) : list Issue.t :=
  match issues with
  | [] => [issue]
  | other :: issues' =>
      if String.eqb (Issue.id other) (Issue.id issue) then issue :: issues'
      else other :: dict_set issue issues'
  end.

(** The loop over the lines; an exception other than [JSONDecodeError]
    leaves the loop with the issues read so far. *)
Fixpoint read_lines (lines : list Line) (issues : list Issue.t)
  : list Issue.t :=
  match lines with
  | [] => issues
  | Blank :: lines' => read_lines lines' issues
  | Malformed :: lines' => read_lines lines' issues
  | NotAnObject :: _ => issues
  | Record_ data :: lines' =>
      read_lines lines' (dict_set (Issue.from_dict data) issues)
  end.

Definition parse_issues_jsonl (path : Store) : list Issue.t :=
  match path with
  | NoFile => []
  | OpenFails => []
  | Opened lines _ => read_lines lines []
  end.

(** The calls of the notifier made by a scan. *)
Inductive Event :=
| Created (issue : Issue.t)                  (* [notify_created] *)
| WorkStarted (issue : Issue.t)              (* [notify_in_progress] *)
| Completed (issue : Issue.t)                (* [notify_closed] *)
| AssigneeAllComplete (agent : string) (closed_issues : list Issue.t).
                                             (* [notify_agent_complete] *)

Definition closed_by_agent (current_issues : list Issue.t) (agent : string)
  : list Issue.t :=
  List.filter
    (fun i => bool_decide (Issue.get_assigned_agent i = Some agent)
              && String.eqb (Issue.status i) "closed")
    current_issues.

(** The calls made in the branch [issue.status == "closed"]. *)
Definition on_closed (current_issues : list Issue.t) (issue : Issue.t)
    (old_status : string) (state : NotifierState.t)
  : list Event * NotifierState.t :=
  match Issue.get_assigned_agent issue with
  | Some agent =>
      let state :=
        NotifierState.update_assignee_tracking issue (Some old_status) state in
      let open_issues :=
        NotifierState.get_open_issues_for_assignee agent state in
      if decide (open_issues = ∅) then
        match closed_by_agent current_issues agent with
        | [] => ([Completed issue], state)
        | closed => ([Completed issue; AssigneeAllComplete agent closed], state)
        end
      else ([Completed issue], state)
  | None => ([Completed issue], state)
  end.

(** The body of the loop of [process_changes] for one issue. *)
Definition process_issue (current_issues : list Issue.t) (issue : Issue.t)
    (state : NotifierState.t) : list Event * NotifierState.t :=
  let prev := NotifierState.previous_issues state !! Issue.id issue in
  let '(events, state) :=
    match prev with
    | None =>
        ([Created issue],
         NotifierState.update_assignee_tracking issue None state)
    | Some p =>
        if negb (String.eqb (NotifierState.rec_status p) (Issue.status issue))
        then
          let old_status := NotifierState.rec_status p in
          let '(events, state) :=
            if String.eqb (Issue.status issue) "in_progress"
               && negb (String.eqb old_status "in_progress")
            then ([WorkStarted issue], state)
            else if String.eqb (Issue.status issue) "closed"
                    && negb (String.eqb old_status "closed")
            then on_closed current_issues issue old_status state
            else ([], state) in
          (events,
           NotifierState.update_assignee_tracking issue (Some old_status) state)
        else ([], state)
    end in
  let old_assignee := prev ≫= NotifierState.rec_assignee in
  let new_assignee := Issue.assignee issue in
  if decide (old_assignee ≠ new_assignee) then
    (events,
     NotifierState.update_assignee_tracking issue
       (NotifierState.rec_status <$> prev) state)
  else (events, state).

(** [for issue_id, issue in current_issues.items()] over the issues still
    to visit. *)
Fixpoint process_loop (current_issues : list Issue.t) (todo : list Issue.t)
    (state : NotifierState.t) : list Event * NotifierState.t :=
  match todo with
  | [] => ([], state)
  | issue :: todo' =>
      let '(events, state) := process_issue current_issues issue state in
      let '(events', state) := process_loop current_issues todo' state in
      (events ++ events', state)
  end.

(** The dict comprehension that replaces [previous_issues]. *)
Definition snapshot_all (current_issues : list Issue.t)
  : gmap string NotifierState.SnapshotRecord :=
  fold_left (fun m issue => <[Issue.id issue := NotifierState.snapshot issue]> m)
            current_issues ∅.

(** [process_changes]: one scan. The state returned is the one saved. *)
Definition process_changes (issues_path : Store) (state : NotifierState.t)
  : list Event * NotifierState.t :=
  let current_issues := parse_issues_jsonl issues_path in
  let '(events, state) := process_loop current_issues current_issues state in
  (events,
   NotifierState.mk (snapshot_all current_issues)
                    (NotifierState.assignee_issues state)).

(** The initial load of [run_daemon]: it notifies nothing. *)
Fixpoint initial_loop (todo : list Issue.t) (state : NotifierState.t)
  : NotifierState.t :=
  match todo with
  | [] => state
  | issue :: todo' =>
      match NotifierState.previous_issues state !! Issue.id issue with
      | Some _ => initial_loop todo' state
      | None =>
          let state :=
            NotifierState.mk
              (<[Issue.id issue := NotifierState.snapshot issue]>
                 (NotifierState.previous_issues state))
              (NotifierState.assignee_issues state) in
          initial_loop todo'
            (NotifierState.update_assignee_tracking issue None state)
      end
  end.

Definition initial_load (issues_path : Store) (state : NotifierState.t)
  : NotifierState.t :=
  initial_loop (parse_issues_jsonl issues_path) state.

(** Successive scans: the events of each, and the state at the end. *)
Fixpoint scans (stores : list Store) (state : NotifierState.t)
  : list (list Event) * NotifierState.t :=
  match stores with
  | [] => ([], state)
  | store :: stores' =>
      let '(events, state) := process_changes store state in
      let '(rest, state) := scans stores' state in
      (events :: rest, state)
  end.

(** The transitions as the specification words them, to be compared with
    [process_issue]. *)

(** The id is absent from the previous snapshot. *)
Definition is_new (prevs : gmap string NotifierState.SnapshotRecord)
    (issue : Issue.t) : bool :=
  bool_decide (prevs !! Issue.id issue = None).

(** The id is present and the status changed to [in_progress] from another
    status. *)
Definition starts_work (prevs : gmap string NotifierState.SnapshotRecord)
    (issue : Issue.t) : bool :=
  match prevs !! Issue.id issue with
  | Some p =>
      String.eqb (Issue.status issue) "in_progress"
      && negb (String.eqb (NotifierState.rec_status p) "in_progress")
  | None => false
  end.

(** The id is present and the status changed to [closed] from another
    status. *)
Definition completes (prevs : gmap string NotifierState.SnapshotRecord)
    (issue : Issue.t) : bool :=
  match prevs !! Issue.id issue with
  | Some p =>
      String.eqb (Issue.status issue) "closed"
      && negb (String.eqb (NotifierState.rec_status p) "closed")
  | None => false
  end.

(** The status notification of one issue. *)
Definition classify (prevs : gmap string NotifierState.SnapshotRecord)
    (issue : Issue.t) : list Event :=
  if is_new prevs issue then [Created issue]
  else if starts_work prevs issue then [WorkStarted issue]
  else if completes prevs issue then [Completed issue]
  else [].

(** The all-complete notification that follows a completion: the agent of
    the issue has nothing outstanding once the issue is taken out. *)
Definition all_complete (current_issues : list Issue.t) (issue : Issue.t)
    (state : NotifierState.t) : list Event :=
  if completes (NotifierState.previous_issues state) issue then
    match Issue.get_assigned_agent issue with
    | Some agent =>
        if decide (NotifierState.get_open_issues_for_assignee agent state
                   ∖ {[Issue.id issue]} = ∅)
        then match closed_by_agent current_issues agent with
             | [] => []
             | closed => [AssigneeAllComplete agent closed]
             end
        else []
    | None => []
    end
  else [].

(** The issue is new, or its status or its assignee field differs from
    the previous record: the cases in which the loop body updates the
    tracking. *)
Definition touched (prevs : gmap string NotifierState.SnapshotRecord)
    (issue : Issue.t) : bool :=
  match prevs !! Issue.id issue with
  | None => true
  | Some p =>
      negb (String.eqb (NotifierState.rec_status p) (Issue.status issue))
      || bool_decide (NotifierState.rec_assignee p ≠ Issue.assignee issue)
  end.

(** A status notification about the issue with id [k]. *)
Definition status_event_of (k : string) (e : Event) : Prop :=
  match e with
  | Created i | WorkStarted i | Completed i => Issue.id i = k
  | AssigneeAllComplete _ _ => False
  end.

(** The read-error policy as the specification words it: no event, and
    the state as it was. *)
Definition scan_leaves_untouched (store : Store) (state : NotifierState.t)
  : Prop :=
  (process_changes store state).1 = []
  ∧ (process_changes store state).2 = state.

(** The store could not be read at all. *)
Definition unreadable (store : Store) : Prop :=
  store = OpenFails ∨ store = Opened [] true.

End Watcher.

(** ** Inputs of the scenarios *)

Module Scenario.

(** A line of the store with the given id, status and assignee. *)
Definition line (id status : string) (assignee : option string)
  : Watcher.Line :=
  Watcher.Record_
    (Issue.mk_dict (Some id) (Some ("Title of " +:+ id)) (Some status) None None
                   None assignee None None None None None).

Definition issue (id status : string) (assignee : option string) : Issue.t :=
  Issue.mk id ("Title of " +:+ id) status 2 "task" "" assignee None None None
           None [].

Definition store (lines : list Watcher.Line) : Watcher.Store :=
  Watcher.Opened lines false.

(** No secret file, a webhook in the config file, another one in
    [SLACK_WEBHOOK_URL]. *)
Definition config_and_env : Config.world :=
  Config.mk_world Absent
    (Holds (Config.mk_data
              (Some "https://hooks.slack.com/services/T000/B000/CONF")
              None None))
    {[ "SLACK_WEBHOOK_URL"%string :=
         "https://hooks.slack.com/services/T000/B000/ENVV"%string ]}.

(** A webhook whose scheme is misspelt, and the message of the
    [InvalidSchema] that [requests] raises for it. *)
Definition misspelt_url : string :=
  "htps://hooks.slack.com/services/T000/B000/XXXX".

Definition invalid_schema : SlackNotifier.Transport :=
  SlackNotifier.RequestException
    ("No connection adapters were found for '" +:+ misspelt_url +:+ "'").

(** A configuration with a webhook and every notification switched on. *)
Definition configured : Config.SlackConfig :=
  Config.with_webhook_url "https://hooks.slack.com/services/T000/B000/XXXX"
    Config.defaults.

(** A title of 201 characters, the last of which is markup. *)
Definition long_title : string :=
  string_of_list_ascii (List.repeat "a"%char 200) +:+ "&".

Definition long_titled : Issue.t :=
  Issue.mk "X-1" long_title "open" 2 "task" "" None None None None None [].

End Scenario.

(** ** Further parts of the source

    The functions below complete the embedding: the display of a webhook,
    the files that hold secrets and state, the start of the daemon, the
    file event handler and the configuration checks. *)


(** *** Display of a webhook

    [mask_url], beads_watcher_template.py lines 102-111 and notifier.py
    lines 83-91. *)

Module Display.

(** [s.split(sep)] for a separator of one character. *)
Fixpoint split_char (sep : ascii) (s : string) : list string :=
  match s with
  | EmptyString => [EmptyString]
  | String c s' =>
      if Ascii.eqb c sep then EmptyString :: split_char sep s'
      else match split_char sep s' with
           | x :: l => String c x :: l
           | [] => [String c EmptyString]
           end
  end.

(** [s[-k:]] for [k > 0]: the last [k] characters. *)
Definition last_chars (k : nat) (s : string) : string :=
  Text.drop (String.length s - k)%nat s.

(** [parts[-k]] for [0 < k <= len(parts)]. *)
Definition from_end (k : nat) (parts : list string) : string :=
  nth (length parts - k)%nat parts EmptyString.

Definition mask_url (url : string) : string :=
  if negb (Text.truthy url) then "(not set)"%string
  else
    let shortened :=
      if (20 <? String.length url)%nat then Text.take 20 url +:+ "..."
      else url in
    if Text.contains "hooks.slack.com" url then
      let parts := split_char "/" url in
      if (5 <=? length parts)%nat then
        "https://hooks.slack.com/services/" +:+ Text.take 4 (from_end 3 parts)
        +:+ ".../" +:+ last_chars 4 (from_end 1 parts)
      else shortened
    else shortened.

End Display.

(** *** Files with restricted permissions

    [enforce_file_permissions] (beads_watcher_template.py lines 114-127,
    notifier.py lines 110-123), [init_secrets_file] (notifier.py lines
    308-336, beads_watcher_template.py lines 769-802), [SecretsManager]
    (secrets/manager.py) and [validate_secret_file] (secrets/validator.py).
    A file is its text and its permission bits; what the operating system
    lets through is an argument. *)

Definition REQUIRED_FILE_MODE : Z := 384.   (* 0o600 *)
Definition SECRETS_DIR_MODE : Z := 448.     (* 0o700 *)

Module Files.

Record file := mk_file {
  content : string;
  mode : Z
}.

(** Whether [os.chmod], [mkdir] and [write_text] succeed (they raise
    otherwise), and the permission bits of a file that [write_text]
    creates. *)
Record os := mk_os {
  chmod_ok : bool;
  mkdir_ok : bool;
  write_ok : bool;
  create_mode : Z
}.

(** [enforce_file_permissions(path, mode)]: the returned flag, and the
    file at [path] afterwards. *)
Definition enforce_file_permissions (sys : os) (path : option file)
    (required : Z) : bool * option file :=
  match path with
  | None => (false, None)
  | Some f =>
      if negb (mode f =? required) then
        if chmod_ok sys then (true, Some (mk_file (content f) required))
        else (false, Some f)
      else (false, Some f)
  end.

(** The secrets directory (its permission bits, if it exists) and the
    webhook file in it. *)
Record secrets := mk_secrets {
  secrets_dir : option Z;
  secrets_file : option file
}.

Definition SECRET_PLACEHOLDER : string :=
  "# Paste your Slack webhook URL here (replace this line)" +:+ nl.

(** [init_secrets_file]: the directory is made when it is missing
    ([None] when [mkdir] raises); a file that exists has its bits
    enforced; otherwise the placeholder is written and protected. *)
Definition init_secrets_file (sys : os) (s : secrets) : bool * secrets :=
  let made : option Z :=
    match secrets_dir s with
    | Some m => Some m
    | None => if mkdir_ok sys then Some SECRETS_DIR_MODE else None
    end in
  match made with
  | None => (false, s)
  | Some m =>
      match secrets_file s with
      | Some f =>
          (true,
           mk_secrets (Some m)
             (enforce_file_permissions sys (Some f) REQUIRED_FILE_MODE).2)
      | None =>
          if write_ok sys then
            if chmod_ok sys then
              (true,
               mk_secrets (Some m)
                 (Some (mk_file SECRET_PLACEHOLDER REQUIRED_FILE_MODE)))
            else
              (false,
               mk_secrets (Some m)
                 (Some (mk_file SECRET_PLACEHOLDER (create_mode sys))))
          else (false, mk_secrets (Some m) None)
      end
  end.

(** [validate_secret_file(path)] *)
Definition validate_secret_file (path : option file) : bool :=
  match path with
  | None => false
  | Some f => mode f =? REQUIRED_FILE_MODE
  end.

End Files.

(** [SecretsManager]: the files that the paths [self.secrets_dir / name]
    denote. Which file a name denotes is the business of [pathlib] and of
    the operating system (['x'] and ['./x'] are one file), so it is an
    argument, [path_of], that gives each name the path of its file. The
    methods catch nothing; they are modelled where the operating system
    lets them through. *)
Module SecretsManager.

Record t := mk {
  dir_mode : option Z;
  files : gmap string Files.file
}.





End SecretsManager.


(** *** The state file

    [NotifierState.load] and [NotifierState.save],
    beads_watcher_template.py lines 321-348. The JSON document has the
    two keys that [save] writes; a set is written as a list, in the order
    [list_of] in which Python iterates over it. *)

Module StateFile.

Record json := mk_json {
  json_previous_issues : option (gmap string NotifierState.SnapshotRecord);
  json_assignee_issues : option (gmap string (list string))
}.

(** The document that [save] dumps. *)
Definition save (list_of : gset string → list string)
    (self : NotifierState.t) : json :=
  mk_json (Some (NotifierState.previous_issues self))
          (Some (list_of <$> NotifierState.assignee_issues self)).

(** What a call of [save] does to the file: the document is written;
    or [open] raises, which leaves the file as it was; or [json.dump]
    raises after [open(path, "w")] has truncated the file, which leaves
    nothing or a document cut short, neither of which [json.load]
    accepts. The exception is caught and logged in both cases. *)
Inductive SaveOutcome := Written | OpenRaises | DumpRaises.

(** What [save] leaves on disk. *)
Definition save_to (outcome : SaveOutcome) (list_of : gset string → list string)
    (self : NotifierState.t) (disk : FileRead json) : FileRead json :=
  match outcome with
  | Written => Holds (save list_of self)
  | OpenRaises => disk
  | DumpRaises => Failing
  end.

(** [load] into the state of [__init__]. *)
Definition load (disk : FileRead json) : NotifierState.t :=
  match disk with
  | Holds data =>
      NotifierState.mk
        (default ∅ (json_previous_issues data))
        ((λ v : list string, list_to_set v)
           <$> default ∅ (json_assignee_issues data))
  | _ => NotifierState.empty
  end.

End StateFile.

(** *** Start of the daemon and file events

    The state that [run_daemon] (beads_watcher_template.py lines 714-730)
    hands to the handler, and [IssueFileHandler.on_modified] (lines
    627-641). *)

Module Daemon.

Definition startup (disk : FileRead StateFile.json) (issues_path : Watcher.Store)
  : NotifierState.t :=
  Watcher.initial_load issues_path (StateFile.load disk).

(** A file system event: whether it is a [FileModifiedEvent], and the
    name of [Path(event.src_path)]. *)
Record fs_event := mk_event {
  is_file_modified : bool;
  src_name : string
}.

(** The handler: the name of [issues_path], the state, the time of the
    last scan and the debounce interval, in the unit of the clock. *)
Record handler := mk_handler {
  issues_name : string;
  state : NotifierState.t;
  last_process_time : Z;
  debounce_seconds : Z
}.

(** [on_modified(event)] at clock reading [now], the store being
    [issues_path] if the scan runs. *)
Definition on_modified (event : fs_event) (now : Z)
    (issues_path : Watcher.Store) (self : handler)
  : list Watcher.Event * handler :=
  if negb (is_file_modified event) then ([], self)
  else if negb (String.eqb (src_name event) (issues_name self))
  then ([], self)
  else if now - last_process_time self <? debounce_seconds self
  then ([], self)
  else
    let '(events, state) := Watcher.process_changes issues_path (state self) in
    (events, mk_handler (issues_name self) state now (debounce_seconds self)).

(** Successive events with their clock readings and the store at that
    time. *)
Fixpoint on_all (triggers : list (fs_event * Z * Watcher.Store))
    (self : handler) : list (list Watcher.Event) * handler :=
  match triggers with
  | [] => ([], self)
  | (event, now, store) :: triggers' =>
      let '(events, self) := on_modified event now store self in
      let '(rest, self) := on_all triggers' self in
      (events :: rest, self)
  end.

End Daemon.

(** *** Configuration checks and the one-shot sender

    [check_config] (beads_watcher_template.py lines 805-861), the [check]
    command of [cli.main] (cli.py lines 186-203) and [send_slack_message]
    (cli.py lines 31-36). *)

Module Check.

(** The return value of [check_config]; [transport] is what the test post
    does. *)
Definition check_config (w : Config.world) (transport : SlackNotifier.Transport)
  : bool :=
  match Config.config_file w, Config.secrets_file w with
  | Absent, Absent => false
  | _, _ =>
      let config := Config.load w in
      if negb (Text.truthy (Config.webhook_url config)) then false
      else
        match transport with
        | SlackNotifier.Response status_code => status_code =? 200
        | _ => false
        end
  end.

(** The exit code of [python -m slack.cli check]. *)
Definition cli_check (w : Config.world) : Z :=
  match Config.get_webhook_url w with
  | Some webhook_url => if Text.truthy webhook_url then 0 else 1
  | None => 1
  end.

(** [send_slack_message(webhook_url, text, blocks)]: a notifier of its
    own, hence a rate limiter of its own. *)
Definition send_slack_message (webhook_url : string) (now now' : Z)
    (transport : SlackNotifier.Transport) (text : string)
    (blocks : list SlackNotifier.Block) : SlackNotifier.Sent :=
  let config := Config.with_webhook_url webhook_url Config.defaults in
  SlackNotifier.send config RateLimiter.default now now' transport text blocks.

End Check.

(** *** Successive notifications of one notifier *)

Module Dispatch.

(** A call of [send]: the clock at [allow()] and at [get_stats()], what
    the post does, and the message. *)
Record call := mk_call {
  call_now : Z;
  call_now' : Z;
  call_transport : SlackNotifier.Transport;
  call_text : string;
  call_blocks : list SlackNotifier.Block
}.

(** The calls in order, the rate limiter of the notifier passing from one
    to the next. *)
Fixpoint send_all (config : Config.SlackConfig) (calls : list call)
    (rate_limiter : RateLimiter.t) : list SlackNotifier.Sent :=
  match calls with
  | [] => []
  | c :: calls' =>
      let sent :=
        SlackNotifier.send config rate_limiter (call_now c) (call_now' c)
          (call_transport c) (call_text c) (call_blocks c) in
      sent :: send_all config calls' (SlackNotifier.sent_limiter sent)
  end.

(** The clock readings of the calls that posted. *)
Fixpoint posted_at (calls : list call) (results : list SlackNotifier.Sent)
  : list Z :=
  match calls, results with
  | c :: calls', sent :: results' =>
      match SlackNotifier.sent_posted sent with
      | Some _ => call_now c :: posted_at calls' results'
      | None => posted_at calls' results'
      end
  | _, _ => []
  end.

(** The clock never runs backwards across the calls. *)
Fixpoint in_order (t0 : Z) (calls : list call) : Prop :=
  match calls with
  | [] => True
  | c :: calls' =>
      t0 <= call_now c ∧ call_now c <= call_now' c
      ∧ in_order (call_now' c) calls'
  end.

End Dispatch.

(* ===================================================================== *)
(** * Part II: properties                                                 *)
(* ===================================================================== *)

(** ** The embedding at work *)

Section Examples.

Example sanitize_escapes :
  sanitize_for_slack "a<b> & c" 100 = "a&lt;b&gt; &amp; c".
Proof. reflexivity. Qed.

Example sanitize_truncates :
  sanitize_for_slack "abcdefghij" 8 = "abcde...".
Proof. reflexivity. Qed.

(** A bound below three makes the slice count from the end. *)
Example sanitize_small_bound : sanitize_for_slack "abcdef" 2 = "abcde...".
Proof. reflexivity. Qed.

Example strip_both_ends : Text.strip "  a b  " = "a b".
Proof. reflexivity. Qed.

Example assigned_in_comment :
  Issue.search_assigned "done, @assigned   agent-7 takes over"
  = Some "agent-7".
Proof. reflexivity. Qed.

Example assigned_needs_a_token : Issue.search_assigned "@assigned  " = None.
Proof. reflexivity. Qed.

Example mask_in_message :
  SensitiveDataFilter.sub "[MASKED]"
    "post to https://hooks.slack.com/services/T0/B0/abc?x failed"
  = "post to [MASKED]?x failed".
Proof. reflexivity. Qed.

(** A later line with the same id replaces the earlier one in place. *)
Example parse_keeps_last :
  Watcher.parse_issues_jsonl
    (Scenario.store [Scenario.line "A" "open" None; Watcher.Malformed;
                     Scenario.line "B" "open" None; Watcher.Blank;
                     Scenario.line "A" "closed" None])
  = [Scenario.issue "A" "closed" None; Scenario.issue "B" "open" None].
Proof. reflexivity. Qed.

(** The initial load notifies nothing; the scan after a change notifies
    the start of the work. *)
Example baseline_then_work_started :
  let state :=
    Watcher.initial_load (Scenario.store [Scenario.line "X-1" "open" None])
                         NotifierState.empty in
  (Watcher.process_changes
     (Scenario.store [Scenario.line "X-1" "in_progress" None]) state).1
  = [Watcher.WorkStarted (Scenario.issue "X-1" "in_progress" None)].
Proof. by vm_compute. Qed.

End Examples.

(** ** Strings *)

#[local] Arguments String.append : simpl nomatch.

Section StringFacts.


Lemma append_assoc (a b c : string) : (a +:+ b) +:+ c = a +:+ (b +:+ c).
Proof. induction a as [|x a IH]; cbn; [done | by f_equal]. Qed.

Lemma length_append (a b : string) :
  String.length (a +:+ b) = (String.length a + String.length b)%nat.
Proof. induction a as [|x a IH]; cbn; [done | by f_equal]. Qed.

Lemma length_take (n : nat) (s : string) :
  String.length (Text.take n s) = (n `min` String.length s)%nat.
Proof.
  revert s; induction n as [|n IH]; intros [|c s]; simpl; try done.
  by rewrite IH.
Qed.

Lemma replace_char_append c r a b :
  Text.replace_char c r (a +:+ b)
  = Text.replace_char c r a +:+ Text.replace_char c r b.
Proof.
  induction a as [|x a IH]; simpl; [done|].
  destruct (Ascii.eqb x c); simpl; rewrite IH; [|done].
  by rewrite append_assoc.
Qed.

Lemma remove_chars_append p a b :
  Text.remove_chars p (a +:+ b)
  = Text.remove_chars p a +:+ Text.remove_chars p b.
Proof.
  induction a as [|x a IH]; simpl; [done|].
  destruct (p x); simpl; by rewrite IH.
Qed.


End StringFacts.

(** ** The sanitizer *)

Section Sanitizer.

(** The three replacements followed by the removal act character by
    character. *)
Lemma replacements_escape (s : string) :
  Text.remove_chars is_stripped_control
    (Text.replace_char ">" "&gt;"
       (Text.replace_char "<" "&lt;"
          (Text.replace_char "&" "&amp;" s)))
  = escape s.
Proof.
  induction s as [|c s IH]; [done|].
  cbn [Text.replace_char escape]. unfold escape_char.
  destruct (Ascii.eqb_spec c "&") as [->|Hamp].
  { cbn. by rewrite IH. }
  cbn [Text.replace_char].
  destruct (Ascii.eqb_spec c "<") as [->|Hlt].
  { cbn. by rewrite IH. }
  cbn [Text.replace_char].
  destruct (Ascii.eqb_spec c ">") as [->|Hgt].
  { cbn. by rewrite IH. }
  cbn [Text.remove_chars].
  destruct (is_stripped_control c); cbn; by rewrite IH.
Qed.

Lemma sanitize_empty (n : Z) : sanitize_for_slack "" n = "".
Proof. done. Qed.

Lemma sanitize_escape (text : string) (n : Z) :
  text ≠ "" → sanitize_for_slack text n = escape (truncate text n).
Proof.
  intros Hne. unfold sanitize_for_slack, truncate.
  destruct text as [|c text]; [done|].
  cbn [Text.truthy negb]. apply replacements_escape.
Qed.

Lemma well_escaped_escape (s : string) : well_escaped (escape s) = true.
Proof.
  induction s as [|c s IH]; [done|].
  cbn [escape]. unfold escape_char.
  destruct (Ascii.eqb_spec c "&") as [->|Hamp]; [by cbn|].
  destruct (Ascii.eqb_spec c "<") as [->|Hlt]; [by cbn|].
  destruct (Ascii.eqb_spec c ">") as [->|Hgt]; [by cbn|].
  destruct (is_stripped_control c); [done|].
  cbn. apply Ascii.eqb_neq in Hamp, Hlt, Hgt.
  by rewrite Hamp, Hlt, Hgt.
Qed.

Lemma no_stripped_control_escape (s : string) :
  no_stripped_control (escape s) = true.
Proof.
  induction s as [|c s IH]; [done|].
  cbn [escape]. unfold escape_char.
  destruct (Ascii.eqb_spec c "&") as [->|Hamp]; [by cbn|].
  destruct (Ascii.eqb_spec c "<") as [->|Hlt]; [by cbn|].
  destruct (Ascii.eqb_spec c ">") as [->|Hgt]; [by cbn|].
  destruct (is_stripped_control c) eqn:Hc; [done|].
  cbn. by rewrite Hc.
Qed.

Lemma length_escape_char (c : ascii) :
  (String.length (escape_char c) <= 5)%nat.
Proof.
  unfold escape_char.
  repeat (match goal with |- context [if ?b then _ else _] => destruct b end);
    cbn; lia.
Qed.

Lemma length_escape (s : string) :
  (String.length (escape s) <= 5 * String.length s)%nat.
Proof.
  induction s as [|c s IH]; [done|].
  cbn [escape String.length]. rewrite length_append.
  pose proof (length_escape_char c). lia.
Qed.

Lemma length_escape_plain (s : string) :
  has_markup s = false → (String.length (escape s) <= String.length s)%nat.
Proof.
  induction s as [|c s IH]; [done|].
  cbn [has_markup escape String.length]. intros H.
  apply orb_false_elim in H as [H Hs].
  apply orb_false_elim in H as [H Hgt].
  apply orb_false_elim in H as [Hamp Hlt].
  unfold escape_char. rewrite Hamp, Hlt, Hgt.
  specialize (IH Hs).
  destruct (is_stripped_control c); cbn; lia.
Qed.

Lemma has_markup_append (a b : string) :
  has_markup (a +:+ b) = has_markup a || has_markup b.
Proof.
  induction a as [|x a IH]; [done|].
  cbn. rewrite IH. by rewrite !orb_assoc.
Qed.

Lemma has_markup_take (k : nat) (s : string) :
  has_markup s = false → has_markup (Text.take k s) = false.
Proof.
  revert s; induction k as [|k IH]; intros [|c s]; cbn; try done.
  intros H. apply orb_false_elim in H as [-> Hs]. by rewrite IH.
Qed.

Lemma has_markup_truncate (text : string) (n : Z) :
  has_markup text = false → has_markup (truncate text n) = false.
Proof.
  intros H. unfold truncate, Text.slice_to.
  destruct (_ >? _); [|done].
  rewrite has_markup_append.
  destruct (0 <=? n - 3); by rewrite has_markup_take.
Qed.

(** From three characters on, the truncation keeps at most [n]
    characters. *)
Lemma length_truncate (text : string) (n : Z) :
  3 <= n → Z.of_nat (String.length (truncate text n)) <= n.
Proof.
  intros Hn. unfold truncate, Text.slice_to.
  destruct (Z.gtb_spec (Z.of_nat (String.length text)) n) as [Hlong|Hshort];
    [|lia].
  destruct (Z.leb_spec 0 (n - 3)); [|lia].
  rewrite length_append, length_take. cbn [String.length]. lia.
Qed.

End Sanitizer.

Section SanitizerClaims.

(** C3, as stated, fails: escaping follows the truncation, so a text of
    three characters with an ampersand comes back seven characters long
    under the bound 3. *)
Lemma sanitize_length_counterexample : ¬ sanitized_within "R&D" 3.
Proof. intros [H _]. vm_compute in H. by apply H. Qed.

(** C3 (amended). For every text and every bound [n] the sanitized text has
    no raw [<] or [>], each [&] in it starts one of the entities [&amp;],
    [&lt;], [&gt;], and it has no control character of the stripped ranges.
    For [n >= 3] its length is at most [5 * n], and at most [n] when the
    text has none of the three markup characters. *)
Theorem sanitize_postcondition (text : string) (n : Z) :
  well_escaped (sanitize_for_slack text n) = true
  ∧ no_stripped_control (sanitize_for_slack text n) = true
  ∧ (3 <= n →
     Z.of_nat (String.length (sanitize_for_slack text n)) <= 5 * n
     ∧ (has_markup text = false →
        Z.of_nat (String.length (sanitize_for_slack text n)) <= n)).
Proof.
  destruct (decide (text = "")) as [->|Hne].
  { rewrite sanitize_empty. cbn. repeat split; lia. }
  rewrite (sanitize_escape _ _ Hne).
  split; [apply well_escaped_escape|].
  split; [apply no_stripped_control_escape|].
  intros Hn. pose proof (length_truncate text n Hn) as Hlen. split.
  - pose proof (length_escape (truncate text n)). lia.
  - intros Hplain.
    pose proof (length_escape_plain _ (has_markup_truncate text n Hplain)).
    lia.
Qed.

Lemma sanitize_postcondition_witness :
  3 <= 8
  ∧ has_markup "abcdefghij" = false
  ∧ Z.of_nat (String.length (sanitize_for_slack "abcdefghij" 8)) <= 8.
Proof.
  split; [lia|]. split; [reflexivity|].
  apply (sanitize_postcondition "abcdefghij" 8); [lia | reflexivity].
Defined.

End SanitizerClaims.

(** ** The rate limiter *)

Section RateLimiterFacts.

Import RateLimiter.

Implicit Types (q : list Z) (now w lo : Z) (rl : RateLimiter.t).

(** Pruning drops a prefix of the deque, all of it older than the window. *)
Lemma prune_split now w q :
  ∃ dropped, q = dropped ++ prune now w q
             ∧ Forall (λ x, x < now - w) dropped.
Proof.
  induction q as [|x q IH]; [by exists []|].
  cbn [prune]. destruct (Z.ltb_spec x (now - w)) as [Hold|Hnew].
  - destruct IH as (dropped & Heq & Hall).
    exists (x :: dropped). split; [by rewrite Heq at 1|by constructor].
  - by exists [].
Qed.

Lemma prune_length now w q : (length (prune now w q) <= length q)%nat.
Proof.
  destruct (prune_split now w q) as (dropped & Heq & _).
  rewrite Heq at 2. rewrite length_app. lia.
Qed.

Lemma prune_repeat now w x (j : nat) :
  prune now w (repeat x j) = if x <? now - w then [] else repeat x j.
Proof.
  induction j as [|j IH]; cbn [repeat prune]; [by destruct (_ <? _)|].
  destruct (x <? now - w); [exact IH | done].
Qed.

Lemma prune_old now w q : Forall (λ x, x < now - w) q → prune now w q = [].
Proof.
  induction 1 as [|x q Hx _ IH]; [done|].
  cbn [prune]. destruct (Z.ltb_spec x (now - w)); [done | lia].
Qed.

Lemma count_in_window_app lo w (a b : list Z) :
  count_in_window lo w (a ++ b)
  = (count_in_window lo w a + count_in_window lo w b)%nat.
Proof. unfold count_in_window. by rewrite List.filter_app, length_app. Qed.

Lemma count_in_window_le lo w (l : list Z) :
  (count_in_window lo w l <= length l)%nat.
Proof.
  unfold count_in_window. induction l as [|x l IH]; cbn; [lia|].
  destruct (_ && _); cbn; lia.
Qed.

Lemma count_in_window_old lo w now (l : list Z) :
  Forall (λ x, x < now) l → now <= lo → count_in_window lo w l = 0%nat.
Proof.
  unfold count_in_window. induction 1 as [|x l Hx _ IH]; intros Hlo; [done|].
  cbn. destruct (Z.leb_spec lo x); [lia|]. cbn. by apply IH.
Qed.

Lemma allow_params now rl :
  max_requests (allow now rl).2 = max_requests rl
  ∧ window_seconds (allow now rl).2 = window_seconds rl.
Proof. unfold allow. by destruct (_ >=? _). Qed.

Lemma allow_inv now rl history t0 :
  limiter_inv rl history t0 → t0 <= now →
  limiter_inv (allow now rl).2
              (if (allow now rl).1 then history ++ [now] else history) now.
Proof.
  intros ((dropped & Hhist & Hold) & Hlen & Hwin) Hmono.
  destruct (prune_split now (window_seconds rl) (requests rl))
    as (dropped' & Hq & Hold').
  pose proof (prune_length now (window_seconds rl) (requests rl)) as Hpl.
  assert (Forall (λ x, x < now - window_seconds rl) (dropped ++ dropped'))
    as Hall.
  { apply Forall_app. split; [|done].
    eapply Forall_impl; [exact Hold|]. cbn. intros; lia. }
  unfold allow, limiter_inv.
  destruct (Z.geb_spec
              (Z.of_nat (length (prune now (window_seconds rl) (requests rl))))
              (max_requests rl)) as [Hfull|Hroom]; cbn [fst snd requests
              max_requests window_seconds].
  - split; [|split; [lia | done]].
    exists (dropped ++ dropped'). split; [|done].
    by rewrite <- app_assoc, <- Hq.
  - split; [|split].
    + exists (dropped ++ dropped'). split; [|done].
      rewrite Hhist. rewrite Hq at 1. by rewrite !app_assoc.
    + rewrite length_app. cbn. lia.
    + intros lo. rewrite count_in_window_app.
      destruct (decide (lo <= now ∧ now <= lo + window_seconds rl))
        as [[Hlo Hhi]|Hout].
      * rewrite Hhist. rewrite Hq at 1.
        rewrite app_assoc, count_in_window_app.
        rewrite (count_in_window_old lo _ (now - window_seconds rl)); [|done|lia].
        pose proof (count_in_window_le lo (window_seconds rl)
                      (prune now (window_seconds rl) (requests rl))).
        pose proof (count_in_window_le lo (window_seconds rl) [now]).
        cbn in *. lia.
      * specialize (Hwin lo).
        assert (count_in_window lo (window_seconds rl) [now] = 0%nat) as ->;
          [|lia].
        unfold count_in_window. cbn.
        destruct (Z.leb_spec lo now); [|done].
        destruct (Z.leb_spec now (lo + window_seconds rl)); [lia|done].
Qed.

Lemma run_inv (nows : list Z) : ∀ rl history t0,
  limiter_inv rl history t0 → monotonic_from t0 nows →
  ∀ lo, Z.of_nat (count_in_window lo (window_seconds rl)
                    (history ++ admitted nows (run nows rl).1))
        <= Z.max 0 (max_requests rl).
Proof.
  induction nows as [|now nows IH]; intros rl history t0 Hinv Hmono lo.
  { cbn. rewrite app_nil_r. apply Hinv. }
  destruct Hmono as [Hle Hmono].
  pose proof (allow_inv now rl history t0 Hinv Hle) as Hstep.
  destruct (allow_params now rl) as [Hmax Hw].
  cbn [run]. destruct (allow now rl) as [b rl1] eqn:Hallow.
  cbn [fst snd] in *.
  specialize (IH rl1 _ now Hstep Hmono lo).
  destruct (run nows rl1) as [bs rl2] eqn:Hrun. cbn [fst] in *.
  rewrite Hmax, Hw in IH.
  destruct b; cbn [admitted]; [|done].
  by rewrite <- app_assoc in IH.
Qed.

Lemma run_app (a b : list Z) rl :
  run (a ++ b) rl
  = ((run a rl).1 ++ (run b (run a rl).2).1, (run b (run a rl).2).2).
Proof.
  revert rl; induction a as [|now a IH]; intros rl.
  { cbn. by destruct (run b rl). }
  cbn [app run]. destruct (allow now rl) as [x rl1].
  rewrite IH. by destruct (run a rl1).
Qed.

(** Calls at one instant: while there is room they are all admitted. *)
Lemma run_burst_answers now w max (n : nat) : ∀ (j : nat) q,
  prune now w q = repeat now j →
  Z.of_nat j + Z.of_nat n <= max →
  (run (repeat now n) (mk max w q)).1 = repeat true n.
Proof.
  induction n as [|n IH]; intros j q Hq Hroom; [done|].
  cbn [repeat run]. unfold allow at 1.
  cbn [requests window_seconds max_requests]. rewrite Hq, repeat_length.
  destruct (Z.geb_spec (Z.of_nat j) max) as [|_]; [lia|].
  specialize (IH (if now <? now - w then 0%nat else S j)
                 (repeat now j ++ [now])).
  destruct (run (repeat now n) _) as [bs rl2]. cbn [fst] in *.
  f_equal. apply IH.
  - rewrite <- repeat_cons. change (now :: repeat now j) with (repeat now (S j)).
    rewrite prune_repeat. by destruct (_ <? _).
  - destruct (_ <? _); lia.
Qed.

Lemma run_burst_state now w max (n : nat) : ∀ (j : nat),
  0 <= w →
  Z.of_nat j + Z.of_nat n <= max →
  run (repeat now n) (mk max w (repeat now j))
  = (repeat true n, mk max w (repeat now (j + n))).
Proof.
  induction n as [|n IH]; intros j Hw Hroom.
  { cbn. by rewrite Nat.add_0_r. }
  cbn [repeat run]. unfold allow at 1.
  cbn [requests window_seconds max_requests].
  rewrite prune_repeat. destruct (Z.ltb_spec now (now - w)); [lia|].
  rewrite repeat_length.
  destruct (Z.geb_spec (Z.of_nat j) max) as [|_]; [lia|].
  rewrite <- repeat_cons. change (now :: repeat now j) with (repeat now (S j)).
  rewrite IH; [|done|lia]. by rewrite Nat.add_succ_r.
Qed.

End RateLimiterFacts.

Section RateLimiterClaims.

Import RateLimiter.

(** C4. Under a clock that does not run backwards, the admitted calls of a
    fresh limiter with timestamps in any window [[lo, lo + window_seconds]]
    never number more than [max_requests]. Once every recorded admission is
    older than the window, [max_requests] calls in a row are admitted
    again. With the defaults (30 per 60 seconds): 30 calls at one instant
    are admitted, a 31st within the same 60 seconds is refused, and a call
    61 seconds after the first is admitted. *)
Theorem rate_limiter_window_bound :
  (∀ (max w : Z) (nows : list Z),
     0 <= max → monotonic nows →
     ∀ lo, Z.of_nat (count_in_window lo w
                       (admitted nows (run nows (init max w)).1)) <= max)
  ∧ (∀ (rl : RateLimiter.t) (now : Z) (n : nat),
       Forall (λ x, x < now - window_seconds rl) (requests rl) →
       Z.of_nat n <= max_requests rl →
       (run (repeat now n) rl).1 = repeat true n)
  ∧ (∀ t0 t1 : Z,
       t0 <= t1 <= t0 + 60 →
       (run (repeat t0 30 ++ [t1; t0 + 61]) RateLimiter.default).1
       = repeat true 30 ++ [false; true]).
Proof.
  split; [|split].
  - intros max w nows Hmax Hmono lo.
    assert (limiter_inv (init max w) [] (hd 0 nows)) as Hinv.
    { split; [by exists []|]. split; cbn; [lia|]. intros; cbn. lia. }
    assert (monotonic_from (hd 0 nows) nows) as Hfrom.
    { destruct nows as [|now nows]; [done|]. cbn in *. split; [lia|done]. }
    pose proof (run_inv nows _ _ _ Hinv Hfrom lo) as H.
    cbn [app init window_seconds max_requests] in H. lia.
  - intros [max w q] now n Hold Hroom. cbn in Hold, Hroom.
    apply (run_burst_answers now w max n 0%nat); [|lia].
    by apply prune_old.
  - intros t0 t1 Ht. rewrite run_app.
    unfold RateLimiter.default, init.
    change (mk RATE_LIMIT_MAX RATE_LIMIT_WINDOW [])
      with (mk RATE_LIMIT_MAX RATE_LIMIT_WINDOW (repeat t0 0)).
    rewrite run_burst_state; [|unfold RATE_LIMIT_WINDOW; lia
                               |unfold RATE_LIMIT_MAX; lia].
    cbn [fst snd]. f_equal.
    unfold RATE_LIMIT_MAX, RATE_LIMIT_WINDOW.
    cbn [run]. unfold allow at 1.
    cbn [requests window_seconds max_requests].
    rewrite prune_repeat. destruct (Z.ltb_spec t0 (t1 - 60)); [lia|].
    rewrite repeat_length. cbn [Nat.add Z.geb Z.of_nat].
    change (Z.of_nat 30 >=? 30) with true. cbv iota.
    unfold allow. cbn [requests window_seconds max_requests].
    rewrite prune_repeat. destruct (Z.ltb_spec t0 (t0 + 61 - 60)); [|lia].
    done.
Qed.

Lemma rate_limiter_window_bound_witness :
  0 <= 2
  ∧ monotonic [0; 0; 0; 61]
  ∧ Z.of_nat (count_in_window 0 60
                (admitted [0; 0; 0; 61] (run [0; 0; 0; 61] (init 2 60)).1))
    <= 2
  ∧ Forall (λ x, x < 100 - window_seconds (mk 2 60 [0; 0]))
           (requests (mk 2 60 [0; 0]))
  ∧ (run (repeat 100 2) (mk 2 60 [0; 0])).1 = repeat true 2
  ∧ (run (repeat 5 30 ++ [65; 5 + 61]) RateLimiter.default).1
    = repeat true 30 ++ [false; true].
Proof.
  assert (monotonic [0; 0; 0; 61]) as Hmono by (cbn; lia).
  assert (Forall (λ x, x < 100 - window_seconds (mk 2 60 [0; 0]))
                 (requests (mk 2 60 [0; 0]))) as Hold
    by (cbn; repeat constructor; lia).
  split; [lia|]. split; [exact Hmono|]. split.
  { apply (proj1 rate_limiter_window_bound 2 60 [0; 0; 0; 61]);
      [lia | exact Hmono]. }
  split; [exact Hold|]. split.
  { apply (proj1 (proj2 rate_limiter_window_bound) (mk 2 60 [0; 0]) 100 2%nat);
      [exact Hold | cbn; lia]. }
  apply (proj2 (proj2 rate_limiter_window_bound) 5 65). lia.
Defined.

End RateLimiterClaims.

(** ** Webhook resolution *)

Section ConfigClaims.

Import Config.

(** [SlackConfig.load] follows the documented precedence whenever the
    config file, if there is one, parses. *)
Lemma load_precedence (w : world) :
  config_file w ≠ Failing →
  webhook_url (load w) = documented_precedence w.
Proof.
  intros Hok. unfold load, documented_precedence.
  destruct (secrets_file w) as [| |content]; destruct (config_file w) as [| |d];
    try done; cbn;
    try destruct (default (NotifyOnDict ∅) (data_notify_on d));
    repeat (match goal with
            | H : Text.truthy ?x = _ |- context [Text.truthy ?x] =>
                rewrite H; cbn
            | |- context [Text.truthy ?x] =>
                destruct (Text.truthy x) eqn:?; cbn in *
            end);
    repeat (match goal with
            | H : Text.truthy ?x = _, H' : context [negb (Text.truthy ?x)] |- _ =>
                rewrite H in H'; cbn in H'
            end); congruence.
Qed.

(** C5. With no secret file, a webhook in the config file and another one
    in [SLACK_WEBHOOK_URL], [get_webhook_url] returns the one of the
    environment, while [SlackConfig.load] and the documented precedence
    give the one of the config file. *)
Theorem get_webhook_url_prefers_environment :
  get_webhook_url Scenario.config_and_env
  = Some "https://hooks.slack.com/services/T000/B000/ENVV"
  ∧ webhook_url (load Scenario.config_and_env)
    = "https://hooks.slack.com/services/T000/B000/CONF"
  ∧ documented_precedence Scenario.config_and_env
    = "https://hooks.slack.com/services/T000/B000/CONF".
Proof. by vm_compute. Qed.

End ConfigClaims.

(** ** The masking of the log filter *)

Section RedactionFacts.

Import SensitiveDataFilter.

Lemma take_drop (k : nat) (s : string) : Text.take k s +:+ Text.drop k s = s.
Proof.
  revert s; induction k as [|k IH]; intros [|c s]; cbn; try done.
  by rewrite IH.
Qed.

Lemma take_app_length (u v : string) :
  Text.take (String.length u) (u +:+ v) = u.
Proof. induction u as [|c u IH]; cbn; [by destruct v | by rewrite IH]. Qed.

Lemma drop_app_length (u v : string) :
  Text.drop (String.length u) (u +:+ v) = v.
Proof. induction u as [|c u IH]; cbn; [by destruct v | done]. Qed.

Lemma startswith_app (p s : string) :
  Text.startswith p s = true ↔ ∃ rest, s = p +:+ rest.
Proof.
  revert s; induction p as [|a p IH]; intros s; cbn.
  { split; [by exists s | done]. }
  destruct s as [|b s]; [split; [done | by intros [? ?]]|].
  rewrite andb_true_iff, IH. split.
  - intros [->%Ascii.eqb_eq [rest ->]]. by exists rest.
  - intros [rest [= -> ->]]. split; [apply Ascii.eqb_refl | by exists rest].
Qed.

(** The pattern matches at the start of [t] exactly when [t] is the prefix
    followed by a character of the class. *)
Lemma webhook_match_Some (t : string) :
  is_Some (webhook_match t) ↔
  ∃ x rest, t = webhook_prefix +:+ String x rest ∧ is_token_char x = true.
Proof.
  unfold webhook_match. split.
  - destruct (Text.startswith webhook_prefix t) eqn:Hp;
      [|by intros [? ?]].
    apply startswith_app in Hp as [rest ->]. rewrite drop_app_length.
    destruct rest as [|x rest]; [by intros [? ?]|]. cbn [Text.span].
    destruct (is_token_char x) eqn:Hx; [|by intros [? ?]]. eauto.
  - intros (x & rest & -> & Hx).
    rewrite (proj2 (startswith_app _ _)) by eauto.
    rewrite drop_app_length. cbn [Text.span]. rewrite Hx.
    destruct (Text.span is_token_char rest). by eexists.
Qed.

Lemma webhook_match_app (u v : string) :
  is_Some (webhook_match u) → is_Some (webhook_match (u +:+ v)).
Proof.
  rewrite !webhook_match_Some. intros (x & rest & -> & Hx).
  exists x, (rest +:+ v). split; [|done]. by rewrite append_assoc.
Qed.

Lemma has_char_app (a : ascii) (u v : string) :
  has_char a (u +:+ v) = has_char a u || has_char a v.
Proof.
  induction u as [|c u IH]; cbn; [done|]. by rewrite IH, orb_assoc.
Qed.

Lemma drop_app_has_char (j : nat) : ∀ (u v : string) (a : ascii) (w : string),
  (j < String.length u)%nat →
  Text.drop j (u +:+ v) = String a w → has_char a u = true.
Proof.
  induction j as [|j IH]; intros [|c u] v a w Hj; cbn in *; try lia.
  - intros [= -> _]. by rewrite Ascii.eqb_refl.
  - intros H. rewrite (IH u v a w); [apply orb_true_r | lia | done].
Qed.

(** Where a text and its masked form first differ, the masked form has
    the opening bracket of the replacement. *)
Lemma sub_agrees (k : nat) : ∀ s : string,
  Text.take k (filter s) = Text.take k s
  ∨ ∃ j rest, (j < k)%nat ∧ Text.drop j (filter s) = String "[" rest.
Proof.
  unfold filter, sub.
  induction k as [|k IH]; intros s; [by left|].
  destruct s as [|c s]; [by left|]. cbn [sub_from].
  destruct (webhook_match (String c s)) as [n|].
  { right. exists 0%nat. eexists. split; [lia|]. by cbn. }
  destruct (IH s) as [Heq|(j & rest & Hj & Hdrop)].
  - left. cbn. by rewrite Heq.
  - right. exists (S j), rest. split; [lia | done].
Qed.

Lemma token_char_not_bracket (x : ascii) :
  is_token_char x = true → Ascii.eqb x "[" = false.
Proof.
  intros Hx. destruct (Ascii.eqb_spec x "[") as [->|]; [|done].
  by vm_compute in Hx.
Qed.

(** A character that starts no match still starts none once the rest of
    the text is masked. *)
Lemma webhook_match_masked_rest (c : ascii) (s : string) :
  webhook_match (String c s) = None →
  webhook_match (String c (filter s)) = None.
Proof.
  intros Hnone. apply eq_None_not_Some. intros Hsome.
  apply webhook_match_Some in Hsome as (x & rest & Hout & Hx).
  set (u := webhook_prefix +:+ String x "").
  assert (String c (filter s) = u +:+ rest) as Hu
    by (subst u; by rewrite Hout, append_assoc).
  assert (String.length u = 34%nat) as Hlen by done.
  destruct (sub_agrees 33 s) as [Heq|(j & r & Hj & Hdrop)].
  - (* the first 34 characters are those of the input *)
    assert (Text.take 34 (String c s) = u) as Htake.
    { change (Text.take 34 (String c s)) with (String c (Text.take 33 s)).
      rewrite <- Heq.
      change (String c (Text.take 33 (filter s)))
        with (Text.take 34 (String c (filter s))).
      rewrite Hu, <- Hlen. apply take_app_length. }
    assert (is_Some (webhook_match (String c s))) as [? Hs]; [|congruence].
    apply webhook_match_Some. exists x, (Text.drop 34 (String c s)).
    split; [|done].
    rewrite <- (take_drop 34 (String c s)) at 1. rewrite Htake.
    subst u. by rewrite append_assoc.
  - (* a bracket among the first 34 characters *)
    assert (has_char "[" u = true) as Hbr.
    { apply (drop_app_has_char (S j) u rest "[" r); [lia|].
      by rewrite <- Hu. }
    subst u. rewrite has_char_app in Hbr. cbn in Hbr.
    by rewrite (token_char_not_bracket x Hx) in Hbr.
Qed.

Lemma app_eq_app (a b x y : string) :
  a +:+ b = x +:+ y →
  (∃ m, x = a +:+ m ∧ b = m +:+ y) ∨ (∃ m, a = x +:+ m ∧ y = m +:+ b).
Proof.
  revert x; induction a as [|c a IH]; intros x; cbn.
  { intros ->. left. by exists x. }
  destruct x as [|d x]; cbn.
  { intros <-. right. by exists (String c a). }
  intros [= -> H]. destruct (IH x H) as [(m & -> & ->)|(m & -> & ->)].
  - left. by exists m.
  - right. by exists m.
Qed.

Lemma no_match_without_h (m rest : string) :
  m ≠ "" → has_char "h" m = false → webhook_match (m +:+ rest) = None.
Proof.
  destruct m as [|a m]; [done|]. intros _ Hh.
  cbn [has_char] in Hh. apply orb_false_elim in Hh as [Ha _].
  unfold webhook_match.
  change (String a m +:+ rest) with (String a (m +:+ rest)).
  assert (Text.startswith webhook_prefix (String a (m +:+ rest)) = false)
    as ->; [|done].
  unfold webhook_prefix. cbn [Text.startswith].
  by rewrite Ascii.eqb_sym, Ha.
Qed.

(** The masked form of a text has no match left. *)
Lemma sub_from_clean (s : string) : ∀ skip,
  clean (sub_from skip "[WEBHOOK_URL_MASKED]" s).
Proof.
  induction s as [|c s IH]; intros skip before after Hsplit.
  { cbn in Hsplit. destruct before, after; try done. }
  cbn [sub_from] in Hsplit. destruct skip as [|skip]; [|by eapply IH].
  destruct (webhook_match (String c s)) as [n|] eqn:Hmatch.
  - apply app_eq_app in Hsplit as [(m & -> & Hrest)|(m & Hrepl & ->)].
    + by eapply IH.
    + destruct (decide (m = "")) as [->|Hm]; [by eapply (IH _ "")|].
      apply no_match_without_h; [done|].
      assert (has_char "h" before || has_char "h" m = false) as Hh
        by (by rewrite <- has_char_app, <- Hrepl).
      by apply orb_false_elim in Hh as [_ ?].
  - destruct before as [|d before]; cbn in Hsplit.
    + subst after. by apply webhook_match_masked_rest.
    + injection Hsplit as _ Hsplit. by eapply IH.
Qed.

(** A webhook that the pattern matches from its start does not occur in
    any filtered message. *)
Lemma filter_masks_webhook (url msg : string) :
  is_Some (webhook_match url) → ¬ occurs_in url (filter msg).
Proof.
  intros Hurl (before & after & Hout).
  apply (webhook_match_app url after) in Hurl as [n Hn].
  pose proof (sub_from_clean msg 0 before (url +:+ after) Hout). congruence.
Qed.

End RedactionFacts.

(** ** Redaction of the webhook in the log *)

Section RedactionClaims.

Import SlackNotifier.

(** Every record that [send] logs has gone through the filter, so a
    webhook that the pattern matches from its start is in none of them,
    whatever the transport does. *)
Lemma send_logs_masked config rl now now' transport text blocks lvl msg :
  is_Some (SensitiveDataFilter.webhook_match (Config.webhook_url config)) →
  (lvl, msg) ∈ sent_logs (send config rl now now' transport text blocks) →
  ¬ occurs_in (Config.webhook_url config) msg.
Proof.
  intros Hurl Hlog.
  assert (∃ m, msg = SensitiveDataFilter.filter m) as [m ->];
    [|by apply filter_masks_webhook].
  revert Hlog. unfold send, log.
  destruct (negb (Text.truthy (Config.webhook_url config))).
  { intros [= _ ->]%list_elem_of_singleton. by eexists. }
  destruct (RateLimiter.allow now rl) as [[|] rl1]; cbn [negb].
  2:{ destruct (RateLimiter.get_stats now' rl1).
      intros [= _ ->]%list_elem_of_singleton. by eexists. }
  destruct transport as [code| |str_e]; [destruct (code =? 200)|..];
    intros [= _ ->]%list_elem_of_singleton; by eexists.
Qed.

(** C8. A webhook that does not match the masked pattern is logged as it
    is: with the misspelt scheme the post raises [InvalidSchema], [send]
    returns [False] and the error record holds the configured URL. *)
Theorem send_failure_logs_webhook :
  let config :=
    Config.with_webhook_url Scenario.misspelt_url Config.defaults in
  let sent :=
    send config RateLimiter.default 0 0 Scenario.invalid_schema "hello" [] in
  sent_ok sent = false
  ∧ sent_logs sent
    = [(ERROR,
        "Failed to send Slack notification: No connection adapters were "
        +:+ "found for 'htps://hooks.slack.com/services/T000/B000/XXXX'")]
  ∧ ∃ msg, (ERROR, msg) ∈ sent_logs sent
           ∧ occurs_in (Config.webhook_url config) msg.
Proof.
  split; [by vm_compute|]. split; [by vm_compute|].
  eexists. split; [vm_compute; apply list_elem_of_here|].
  exists "Failed to send Slack notification: No connection adapters were found for '", "'".
  by vm_compute.
Qed.

End RedactionClaims.

(** ** The diff engine *)

Section WatcherFacts.

Import Watcher NotifierState.

Implicit Types (issue : Issue.t) (state : NotifierState.t)
  (cur todo : list Issue.t) (e : Event).

Lemma update_previous issue old state :
  previous_issues (update_assignee_tracking issue old state)
  = previous_issues state.
Proof.
  unfold update_assignee_tracking.
  destruct (Issue.get_assigned_agent issue); [|done].
  destruct (String.eqb _ _); [done|]. by destruct (_ || _).
Qed.

(** Closing an issue takes it out of the set of its agent. *)
Lemma update_closed issue old state agent :
  Issue.get_assigned_agent issue = Some agent →
  Issue.status issue = "closed" →
  get_open_issues_for_assignee agent
    (update_assignee_tracking issue old state)
  = get_open_issues_for_assignee agent state ∖ {[Issue.id issue]}.
Proof.
  intros Hagent Hclosed.
  unfold update_assignee_tracking, get_open_issues_for_assignee.
  rewrite Hagent, Hclosed. cbn.
  destruct (assignee_issues state !! agent) as [tracked|] eqn:Hlook; cbn.
  - by rewrite lookup_insert_eq, Hlook.
  - by rewrite !lookup_insert_eq.
Qed.

(** The loop body emits the status notification of the issue, followed by
    the all-complete notification when there is one. *)
Lemma process_issue_events cur issue state :
  (process_issue cur issue state).1
  = classify (previous_issues state) issue ++ all_complete cur issue state.
Proof.
  unfold process_issue, classify, all_complete, is_new, starts_work, completes.
  destruct (previous_issues state !! Issue.id issue) as [p|] eqn:Hprev; cbn.
  2:{ by destruct (decide _). }
  destruct (String.eqb_spec (rec_status p) (Issue.status issue)) as [Heq|Hne];
    cbn.
  { rewrite Heq.
    destruct (String.eqb_spec (Issue.status issue) "in_progress");
      destruct (String.eqb_spec (Issue.status issue) "closed");
      cbn; by destruct (decide _). }
  destruct (String.eqb_spec (Issue.status issue) "in_progress") as [Hin|Hnin];
    cbn.
  { rewrite Hin in *.
    destruct (String.eqb_spec (rec_status p) "in_progress"); [done|]. cbn.
    by destruct (decide _). }
  destruct (String.eqb_spec (Issue.status issue) "closed") as [Hcl|Hncl]; cbn.
  2:{ by destruct (decide _). }
  destruct (String.eqb_spec (rec_status p) "closed") as [Hpc|Hpc]; cbn.
  { congruence. }
  unfold on_closed.
  destruct (Issue.get_assigned_agent issue) as [agent|] eqn:Hagent.
  2:{ by destruct (decide _). }
  rewrite (update_closed _ _ _ _ Hagent Hcl).
  destruct (decide (_ ∖ _ = ∅)).
  - destruct (closed_by_agent cur agent); by destruct (decide (_ ≠ _)).
  - by destruct (decide (_ ≠ _)).
Qed.

Lemma on_closed_previous cur issue old state :
  previous_issues (on_closed cur issue old state).2 = previous_issues state.
Proof.
  unfold on_closed. destruct (Issue.get_assigned_agent issue); [|done].
  destruct (decide _); [destruct (closed_by_agent _ _)|]; cbn;
    by rewrite update_previous.
Qed.

Lemma process_issue_previous cur issue state :
  previous_issues (process_issue cur issue state).2 = previous_issues state.
Proof.
  unfold process_issue.
  destruct (previous_issues state !! Issue.id issue) as [p|]; cbn.
  2:{ destruct (decide _); cbn; by rewrite ?update_previous. }
  destruct (negb _).
  2:{ destruct (decide _); cbn; by rewrite ?update_previous. }
  destruct (_ && _); [|destruct (_ && _)].
  - destruct (decide _); cbn; by rewrite ?update_previous.
  - pose proof (on_closed_previous cur issue (rec_status p) state) as Hc.
    destruct (on_closed _ _ _ _) as [ev st1]. cbn in Hc.
    destruct (decide _); cbn; by rewrite ?update_previous.
  - destruct (decide _); cbn; by rewrite ?update_previous.
Qed.

Lemma process_loop_previous cur todo : ∀ state,
  previous_issues (process_loop cur todo state).2 = previous_issues state.
Proof.
  induction todo as [|issue todo IH]; intros state; [done|].
  cbn [process_loop].
  pose proof (process_issue_previous cur issue state) as Hp.
  destruct (process_issue cur issue state) as [ev st1]. cbn in Hp.
  specialize (IH st1). destruct (process_loop cur todo st1) as [ev' st2].
  cbn in *. congruence.
Qed.

Lemma process_loop_app cur (a b : list Issue.t) state :
  process_loop cur (a ++ b) state
  = ((process_loop cur a state).1
     ++ (process_loop cur b (process_loop cur a state).2).1,
     (process_loop cur b (process_loop cur a state).2).2).
Proof.
  revert state; induction a as [|issue a IH]; intros state.
  { cbn. by destruct (process_loop cur b state). }
  cbn [app process_loop].
  destruct (process_issue cur issue state) as [ev st1].
  rewrite IH. destruct (process_loop cur a st1) as [ev1 st2]. cbn.
  destruct (process_loop cur b st2). cbn. by rewrite app_assoc.
Qed.

Lemma process_loop_cons cur issue todo state :
  process_loop cur (issue :: todo) state
  = ((process_issue cur issue state).1
     ++ (process_loop cur todo (process_issue cur issue state).2).1,
     (process_loop cur todo (process_issue cur issue state).2).2).
Proof.
  cbn [process_loop]. destruct (process_issue cur issue state) as [ev st1].
  cbn. by destruct (process_loop cur todo st1).
Qed.

(** An event of the scan is an event of the loop body for one issue, in
    the state reached after the issues before it. *)
Lemma process_loop_event cur todo : ∀ state e,
  e ∈ (process_loop cur todo state).1 ↔
  ∃ before issue after,
    todo = before ++ issue :: after
    ∧ e ∈ (process_issue cur issue (process_loop cur before state).2).1.
Proof.
  induction todo as [|issue todo IH]; intros state e.
  { cbn. split; [by intros ?%elem_of_nil|].
    intros (before & i & after & H & _). by destruct before. }
  rewrite process_loop_cons. cbn [fst]. rewrite elem_of_app, IH. split.
  - intros [Hhere|(before & i & after & -> & Hin)].
    + by exists [], issue, todo.
    + exists (issue :: before), i, after. split; [done|].
      by rewrite process_loop_cons.
  - intros (before & i & after & Heq & Hin).
    destruct before as [|x before]; cbn in Heq; simplify_eq.
    + by left.
    + right. exists before, i, after. split; [done|].
      by rewrite process_loop_cons in Hin.
Qed.

End WatcherFacts.

Section ParseFacts.

Import Watcher NotifierState.

Lemma dict_set_ids issue (issues : list Issue.t) (k : string) :
  k ∈ map Issue.id (dict_set issue issues) →
  k = Issue.id issue ∨ k ∈ map Issue.id issues.
Proof.
  induction issues as [|other issues IH]; cbn.
  { intros ->%list_elem_of_singleton. by left. }
  destruct (String.eqb_spec (Issue.id other) (Issue.id issue)) as [Heq|Hne];
    cbn; rewrite !elem_of_cons; [tauto|].
  intros [->|Hin]; [tauto|]. destruct (IH Hin); tauto.
Qed.

Lemma dict_set_NoDup issue (issues : list Issue.t) :
  NoDup (map Issue.id issues) → NoDup (map Issue.id (dict_set issue issues)).
Proof.
  induction issues as [|other issues IH]; cbn; intros Hnd.
  { apply NoDup_singleton. }
  apply NoDup_cons in Hnd as [Hfresh Hnd].
  destruct (String.eqb_spec (Issue.id other) (Issue.id issue)) as [Heq|Hne];
    cbn; apply NoDup_cons.
  - by rewrite <- Heq.
  - split; [|by apply IH].
    intros [Hk|Hk]%dict_set_ids; congruence.
Qed.

Lemma read_lines_NoDup (lines : list Line) : ∀ issues,
  NoDup (map Issue.id issues) →
  NoDup (map Issue.id (read_lines lines issues)).
Proof.
  induction lines as [|[| | |data] lines IH]; intros issues Hnd; cbn; auto.
  apply IH. by apply dict_set_NoDup.
Qed.

(** The ids of the parsed issues are distinct: they are the keys of a
    dict. *)
Lemma parse_NoDup (store : Store) :
  NoDup (map Issue.id (parse_issues_jsonl store)).
Proof.
  destruct store as [| |lines fails]; cbn; try apply NoDup_nil_2.
  apply read_lines_NoDup, NoDup_nil_2.
Qed.

Lemma same_id_same_issue (issues : list Issue.t) (i j : Issue.t) :
  NoDup (map Issue.id issues) → i ∈ issues → j ∈ issues →
  Issue.id i = Issue.id j → i = j.
Proof.
  induction issues as [|x issues IH]; intros Hnd Hi Hj Hid.
  { by apply elem_of_nil in Hi. }
  cbn in Hnd. apply NoDup_cons in Hnd as [Hfresh Hnd].
  apply elem_of_cons in Hi as [->|Hi], Hj as [->|Hj]; auto.
  - exfalso. apply Hfresh. rewrite Hid. by apply list_elem_of_fmap_2.
  - exfalso. apply Hfresh. rewrite <- Hid. by apply list_elem_of_fmap_2.
Qed.

Lemma snapshot_fold_lookup (issues : list Issue.t) :
  ∀ (m : gmap string SnapshotRecord) i,
  NoDup (map Issue.id issues) → i ∈ issues →
  fold_left (λ m issue, <[Issue.id issue := snapshot issue]> m) issues m
    !! Issue.id i = Some (snapshot i).
Proof.
  induction issues as [|x issues IH]; intros m i Hnd Hi.
  { by apply elem_of_nil in Hi. }
  cbn in Hnd. apply NoDup_cons in Hnd as [Hfresh Hnd].
  cbn [fold_left]. apply elem_of_cons in Hi as [->|Hi]; [|by apply IH].
  clear IH Hnd. revert m. induction issues as [|y issues IH]; intros m.
  { cbn. apply lookup_insert_eq. }
  cbn [fold_left]. cbn in Hfresh. rewrite not_elem_of_cons in Hfresh.
  destruct Hfresh as [Hne Hfresh].
  rewrite insert_insert_ne by done. by apply IH.
Qed.

Lemma snapshot_all_lookup (issues : list Issue.t) (i : Issue.t) :
  NoDup (map Issue.id issues) → i ∈ issues →
  snapshot_all issues !! Issue.id i = Some (snapshot i).
Proof. apply snapshot_fold_lookup. Qed.

End ParseFacts.

Section TrackingFacts.

Import Watcher NotifierState.

Implicit Types (issue : Issue.t) (state : NotifierState.t)
  (cur todo : list Issue.t).

(** The tracking update does not look at the old status. *)
Lemma update_old_status issue old state :
  update_assignee_tracking issue old state
  = update_assignee_tracking issue None state.
Proof. done. Qed.

(** Updating twice for the same issue is updating once. *)
Lemma update_idem issue state :
  update_assignee_tracking issue None
    (update_assignee_tracking issue None state)
  = update_assignee_tracking issue None state.
Proof.
  unfold update_assignee_tracking.
  destruct (Issue.get_assigned_agent issue) as [agent|]; [|done].
  set (index := match assignee_issues state !! agent with
                | Some _ => assignee_issues state
                | None => <[agent:=∅]> (assignee_issues state)
                end).
  assert (is_Some (index !! agent)) as [tracked Htracked].
  { subst index. destruct (assignee_issues state !! agent) eqn:H; [by eexists|].
    rewrite lookup_insert_eq. by eexists. }
  rewrite Htracked. cbn [default].
  destruct (String.eqb (Issue.status issue) "closed"); cbn.
  { rewrite lookup_insert_eq. cbn. rewrite lookup_insert_eq. cbn.
    rewrite insert_insert_eq. do 2 f_equal.
    apply set_eq. intros x. set_unfold. tauto. }
  destruct (_ || _); cbn.
  { rewrite lookup_insert_eq. cbn. rewrite lookup_insert_eq. cbn.
    rewrite insert_insert_eq. do 2 f_equal.
    apply set_eq. intros x. set_unfold. tauto. }
  fold index. by rewrite Htracked.
Qed.

(** The state after the loop body: one tracking update when the issue is
    new or changed, nothing otherwise. *)
Lemma process_issue_state cur issue state :
  (process_issue cur issue state).2
  = if touched (previous_issues state) issue
    then update_assignee_tracking issue None state
    else state.
Proof.
  unfold process_issue, touched.
  destruct (previous_issues state !! Issue.id issue) as [p|]; cbn.
  2:{ destruct (decide _); cbn; [|done]. apply update_idem. }
  destruct (String.eqb (rec_status p) (Issue.status issue)); cbn.
  { destruct (decide _); cbn.
    - by rewrite bool_decide_eq_true_2.
    - by rewrite bool_decide_eq_false_2. }
  destruct (_ && _); [|destruct (_ && _)]; cbn.
  - destruct (decide _); cbn;
      rewrite ?(update_old_status _ (Some _)), ?update_idem; done.
  - unfold on_closed. destruct (Issue.get_assigned_agent issue); cbn.
    + destruct (decide (_ = ∅)); [destruct (closed_by_agent _ _)|]; cbn;
        destruct (decide (_ ≠ _)); cbn;
        rewrite ?(update_old_status _ (Some _)), ?update_idem; done.
    + destruct (decide _); cbn;
        rewrite ?(update_old_status _ (Some _)), ?update_idem; done.
  - destruct (decide _); cbn;
      rewrite ?(update_old_status _ (Some _)), ?update_idem; done.
Qed.

(** An issue that is in the snapshot as it stands leaves no trace. *)
Lemma quiet_issue cur issue state :
  previous_issues state !! Issue.id issue = Some (snapshot issue) →
  process_issue cur issue state = ([], state).
Proof.
  intros Hprev.
  rewrite (surjective_pairing (process_issue cur issue state)).
  rewrite process_issue_events, process_issue_state.
  unfold classify, all_complete, is_new, starts_work, completes, touched.
  rewrite Hprev. cbn.
  rewrite String.eqb_refl, bool_decide_eq_false_2 by (by intros []). cbn.
  destruct (String.eqb (Issue.status issue) "in_progress");
    destruct (String.eqb (Issue.status issue) "closed"); done.
Qed.

Lemma quiet_loop cur todo state :
  (∀ issue, issue ∈ todo →
     previous_issues state !! Issue.id issue = Some (snapshot issue)) →
  process_loop cur todo state = ([], state).
Proof.
  induction todo as [|issue todo IH]; intros Hall; [done|].
  cbn [process_loop]. rewrite quiet_issue by (apply Hall; left).
  rewrite IH; [done|]. intros i Hi. apply Hall. by right.
Qed.

End TrackingFacts.

Section ScanClaims.

Import Watcher NotifierState.

(** C9. For every store and every prior state, a second scan of the
    unchanged store right after a first one notifies nothing and leaves
    the state saved by the first. *)
Theorem scan_idempotent (store : Store) (state : NotifierState.t) :
  let first := process_changes store state in
  let second := process_changes store first.2 in
  second.1 = [] ∧ second.2 = first.2.
Proof.
  cbn zeta. unfold process_changes.
  set (cur := parse_issues_jsonl store).
  destruct (process_loop cur cur state) as [events st1]. cbn [snd].
  rewrite quiet_loop; [done|].
  intros issue Hin. cbn [previous_issues].
  apply snapshot_all_lookup; [apply parse_NoDup | done].
Qed.

(** C2, as stated, fails: after a scan that tracked an issue, a scan that
    cannot open the store empties [previous_issues]. *)
Lemma read_error_wipes_snapshot :
  ¬ scan_leaves_untouched OpenFails
      (process_changes (Scenario.store [Scenario.line "X-1" "open" None])
                       NotifierState.empty).2.
Proof.
  intros [_ Hstate].
  apply (f_equal (λ st, previous_issues st !! "X-1"%string)) in Hstate.
  by vm_compute in Hstate.
Qed.

(** C2 (amended). When the store cannot be read at all, the scan notifies
    nothing and leaves the assignee index as it was, and it replaces
    [previous_issues] by the empty map. *)
Theorem read_error_scan (store : Store) (state : NotifierState.t) :
  unreadable store →
  (process_changes store state).1 = []
  ∧ assignee_issues (process_changes store state).2 = assignee_issues state
  ∧ previous_issues (process_changes store state).2 = ∅.
Proof. by intros [-> | ->]. Qed.

Lemma read_error_scan_witness :
  unreadable OpenFails
  ∧ (process_changes OpenFails
       (process_changes (Scenario.store [Scenario.line "X-1" "open" None])
                        NotifierState.empty).2).1 = [].
Proof.
  assert (unreadable OpenFails) as Hun by (by left).
  split; [exact Hun|].
  exact (proj1 (read_error_scan OpenFails _ Hun)).
Defined.

End ScanClaims.

Section TransitionFacts.

Import Watcher NotifierState.

Implicit Types (issue : Issue.t) (state : NotifierState.t)
  (cur todo : list Issue.t) (e : Event) (k : string).

Lemma classify_status_event prevs issue e :
  e ∈ classify prevs issue → status_event_of (Issue.id issue) e.
Proof.
  unfold classify.
  repeat (match goal with |- context [if ?b then _ else _] => destruct b end);
    try (by intros ?%elem_of_nil); by intros ->%list_elem_of_singleton.
Qed.

Lemma all_complete_event cur issue state e :
  e ∈ all_complete cur issue state →
  ∃ agent,
    e = AssigneeAllComplete agent (closed_by_agent cur agent)
    ∧ completes (previous_issues state) issue = true
    ∧ Issue.get_assigned_agent issue = Some agent
    ∧ get_open_issues_for_assignee agent state ∖ {[Issue.id issue]} = ∅.
Proof.
  unfold all_complete.
  destruct (completes _ _); [|by intros ?%elem_of_nil].
  destruct (Issue.get_assigned_agent issue) as [agent|];
    [|by intros ?%elem_of_nil].
  destruct (decide _) as [Hempty|]; [|by intros ?%elem_of_nil].
  destruct (closed_by_agent cur agent) as [|c closed] eqn:Hclosed;
    [by intros ?%elem_of_nil|].
  intros ->%list_elem_of_singleton. exists agent. by rewrite Hclosed.
Qed.

(** The status notifications of a scan are those of the transition table,
    issue by issue. *)
Lemma status_events_iff store state k e :
  status_event_of k e →
  e ∈ (process_changes store state).1 ↔
  ∃ issue, issue ∈ parse_issues_jsonl store
           ∧ e ∈ classify (previous_issues state) issue.
Proof.
  intros Hstatus. unfold process_changes.
  set (cur := parse_issues_jsonl store).
  destruct (process_loop cur cur state) as [events st1] eqn:Hloop.
  cbn [fst]. replace events with (process_loop cur cur state).1
    by (by rewrite Hloop).
  rewrite process_loop_event. split.
  - intros (before & issue & after & Hcur & Hin).
    rewrite process_issue_events, process_loop_previous in Hin.
    apply elem_of_app in Hin as [Hin|Hin].
    + exists issue. split; [|done]. rewrite Hcur. set_solver.
    + apply all_complete_event in Hin as (agent & -> & _). done.
  - intros (issue & Hin & Hcl).
    apply list_elem_of_split in Hin as (before & after & Hcur).
    exists before, issue, after. split; [done|].
    rewrite process_issue_events, process_loop_previous.
    apply elem_of_app. by left.
Qed.

Lemma classify_created prevs issue x :
  Created x ∈ classify prevs issue ↔ x = issue ∧ prevs !! Issue.id issue = None.
Proof.
  unfold classify, is_new.
  destruct (decide (prevs !! Issue.id issue = None)) as [Hnone|Hsome].
  - rewrite bool_decide_eq_true_2 by done.
    rewrite list_elem_of_singleton. naive_solver.
  - rewrite bool_decide_eq_false_2 by done.
    repeat (match goal with |- context [if ?b then _ else _] => destruct b end);
      rewrite ?list_elem_of_singleton, ?elem_of_nil; naive_solver.
Qed.

Lemma classify_work_started prevs issue x :
  WorkStarted x ∈ classify prevs issue ↔
  x = issue ∧ ∃ p, prevs !! Issue.id issue = Some p
                   ∧ Issue.status issue = "in_progress"
                   ∧ rec_status p ≠ "in_progress".
Proof.
  unfold classify, is_new, starts_work, completes.
  destruct (prevs !! Issue.id issue) as [p|] eqn:Hprev.
  2:{ rewrite bool_decide_eq_true_2 by done.
      rewrite list_elem_of_singleton. naive_solver. }
  rewrite bool_decide_eq_false_2 by done.
  destruct (String.eqb_spec (Issue.status issue) "in_progress") as [Hin|Hin];
    destruct (String.eqb_spec (rec_status p) "in_progress") as [Hp|Hp]; cbn;
    repeat (match goal with |- context [if ?b then _ else _] => destruct b end);
    rewrite ?list_elem_of_singleton, ?elem_of_nil; naive_solver.
Qed.

Lemma classify_completed prevs issue x :
  Completed x ∈ classify prevs issue ↔
  x = issue ∧ ∃ p, prevs !! Issue.id issue = Some p
                   ∧ Issue.status issue = "closed"
                   ∧ rec_status p ≠ "closed".
Proof.
  unfold classify, is_new, starts_work, completes.
  destruct (prevs !! Issue.id issue) as [p|] eqn:Hprev.
  2:{ rewrite bool_decide_eq_true_2 by done.
      rewrite list_elem_of_singleton. naive_solver. }
  rewrite bool_decide_eq_false_2 by done.
  destruct (String.eqb_spec (Issue.status issue) "closed") as [Hcl|Hcl];
    destruct (String.eqb_spec (rec_status p) "closed") as [Hp|Hp];
    destruct (String.eqb_spec (Issue.status issue) "in_progress") as [Hin|Hin];
    cbn;
    repeat (match goal with |- context [if ?b then _ else _] => destruct b end);
    rewrite ?list_elem_of_singleton, ?elem_of_nil; try naive_solver.
  all: rewrite Hcl in Hin; done.
Qed.

End TransitionFacts.

Section TransitionClaims.

Import Watcher NotifierState.

Lemma status_event_of_inj k k' e :
  status_event_of k e → status_event_of k' e → k = k'.
Proof. destruct e; cbn; [congruence..|tauto]. Qed.

(** The status notifications about an id are those of the issue that
    carries it. *)
Lemma scan_status_events_of store state k x e :
  x ∈ parse_issues_jsonl store → Issue.id x = k → status_event_of k e →
  e ∈ (process_changes store state).1 ↔ e ∈ classify (previous_issues state) x.
Proof.
  intros Hx Hk He. rewrite (status_events_iff _ _ k) by done. split.
  - intros (issue & Hin & Hcl).
    pose proof (classify_status_event _ _ _ Hcl) as He'.
    assert (issue = x) as ->; [|done].
    apply (same_id_same_issue (parse_issues_jsonl store));
      auto using parse_NoDup.
    rewrite Hk. by apply (status_event_of_inj _ _ e).
  - intros Hcl. by exists x.
Qed.

Lemma scan_previous store state x :
  x ∈ parse_issues_jsonl store →
  previous_issues (process_changes store state).2 !! Issue.id x
  = Some (snapshot x).
Proof.
  intros Hx. unfold process_changes.
  destruct (process_loop _ _ _). cbn.
  apply snapshot_all_lookup; [apply parse_NoDup | done].
Qed.

(** C6. For every previous snapshot and every item of the current store:
    Created fires iff the id is absent from the snapshot; WorkStarted iff
    the id is present and the status became [in_progress] from another
    status; Completed iff the id is present and the status became [closed]
    from another status; an item of the snapshot whose status is neither
    fires no status notification. An item seen [open], then [in_progress], then
    [closed] in three scans fires only WorkStarted in the second and only
    Completed in the third, and nothing but Created in the first. *)
Theorem transition_classification :
  (∀ store state issue,
     issue ∈ parse_issues_jsonl store →
     let prevs := previous_issues state in
     let events := (process_changes store state).1 in
     (Created issue ∈ events ↔ prevs !! Issue.id issue = None)
     ∧ (WorkStarted issue ∈ events ↔
        ∃ p, prevs !! Issue.id issue = Some p
             ∧ Issue.status issue = "in_progress"
             ∧ rec_status p ≠ "in_progress")
     ∧ (Completed issue ∈ events ↔
        ∃ p, prevs !! Issue.id issue = Some p
             ∧ Issue.status issue = "closed"
             ∧ rec_status p ≠ "closed"))
  ∧ (∀ store state issue e,
       issue ∈ parse_issues_jsonl store →
       is_Some (previous_issues state !! Issue.id issue) →
       Issue.status issue ≠ "in_progress" →
       Issue.status issue ≠ "closed" →
       status_event_of (Issue.id issue) e →
       e ∉ (process_changes store state).1)
  ∧ (∀ s1 s2 s3 state x1 x2 x3 k,
       x1 ∈ parse_issues_jsonl s1 →
       x2 ∈ parse_issues_jsonl s2 →
       x3 ∈ parse_issues_jsonl s3 →
       Issue.id x1 = k → Issue.id x2 = k → Issue.id x3 = k →
       Issue.status x1 = "open" →
       Issue.status x2 = "in_progress" →
       Issue.status x3 = "closed" →
       let r1 := process_changes s1 state in
       let r2 := process_changes s2 r1.2 in
       let r3 := process_changes s3 r2.2 in
       ∀ e, status_event_of k e →
            (e ∈ r1.1 → e = Created x1)
            ∧ (e ∈ r2.1 ↔ e = WorkStarted x2)
            ∧ (e ∈ r3.1 ↔ e = Completed x3)).
Proof.
  split.
  - intros store state issue Hin prevs events. subst prevs events.
    repeat split.
    + rewrite (scan_status_events_of _ _ (Issue.id issue) issue) by done.
      rewrite classify_created. tauto.
    + rewrite (scan_status_events_of _ _ (Issue.id issue) issue) by done.
      rewrite classify_created. tauto.
    + rewrite (scan_status_events_of _ _ (Issue.id issue) issue) by done.
      rewrite classify_work_started. tauto.
    + rewrite (scan_status_events_of _ _ (Issue.id issue) issue) by done.
      rewrite classify_work_started. tauto.
    + rewrite (scan_status_events_of _ _ (Issue.id issue) issue) by done.
      rewrite classify_completed. tauto.
    + rewrite (scan_status_events_of _ _ (Issue.id issue) issue) by done.
      rewrite classify_completed. tauto.
  - split.
    { intros store state issue e Hin [p Hp] Hnp Hnc He.
      rewrite (scan_status_events_of _ _ (Issue.id issue) issue) by done.
      unfold classify, is_new, starts_work, completes. rewrite Hp.
      rewrite bool_decide_eq_false_2 by done.
      apply String.eqb_neq in Hnp, Hnc. rewrite Hnp, Hnc. cbn.
      apply not_elem_of_nil. }
    intros s1 s2 s3 state x1 x2 x3 k H1 H2 H3 Hk1 Hk2 Hk3 Hs1 Hs2 Hs3 r1 r2 r3
           e He.
    subst r1 r2 r3.
    rewrite (scan_status_events_of s1 _ k x1) by done.
    rewrite (scan_status_events_of s2 _ k x2) by done.
    rewrite (scan_status_events_of s3 _ k x3) by done.
    unfold classify, is_new, starts_work, completes.
    pose proof (scan_previous s1 state x1 H1) as Hp1.
    pose proof (scan_previous s2 (process_changes s1 state).2 x2 H2) as Hp2.
    rewrite Hk1, <- Hk2 in Hp1. rewrite Hk2, <- Hk3 in Hp2.
    rewrite Hp1, Hp2. cbn [snapshot rec_status].
    rewrite Hs1, Hs2, Hs3. cbn.
    repeat case_bool_decide; try done; rewrite !list_elem_of_singleton.
    + done.
    + split; [|done].
      destruct (previous_issues state !! Issue.id x1); [|done].
      by intros ?%elem_of_nil.
Qed.

Lemma transition_classification_witness :
  let s1 := Scenario.store [Scenario.line "X-1" "open" None] in
  let s2 := Scenario.store [Scenario.line "X-1" "in_progress" None] in
  let s3 := Scenario.store [Scenario.line "X-1" "closed" None] in
  let x2 := Scenario.issue "X-1" "in_progress" None in
  let r1 := process_changes s1 NotifierState.empty in
  let r2 := process_changes s2 r1.2 in
  x2 ∈ parse_issues_jsonl s2
  ∧ status_event_of "X-1" (WorkStarted x2)
  ∧ (WorkStarted x2 ∈ (process_changes s2 NotifierState.empty).1 ↔
     ∃ p, previous_issues NotifierState.empty !! Issue.id x2 = Some p
          ∧ Issue.status x2 = "in_progress"
          ∧ rec_status p ≠ "in_progress")
  ∧ (WorkStarted x2 ∈ r2.1 ↔ WorkStarted x2 = WorkStarted x2).
Proof.
  cbn zeta.
  assert (Scenario.issue "X-1" "in_progress" None
          ∈ parse_issues_jsonl
              (Scenario.store [Scenario.line "X-1" "in_progress" None]))
    as Hx2 by (vm_compute; apply list_elem_of_here).
  split; [exact Hx2|]. split; [reflexivity|]. split.
  - exact (proj1 (proj2 (proj1 transition_classification _
                           NotifierState.empty _ Hx2))).
  - refine (proj1 (proj2 (proj2 (proj2 transition_classification)
             (Scenario.store [Scenario.line "X-1" "open" None])
             (Scenario.store [Scenario.line "X-1" "in_progress" None])
             (Scenario.store [Scenario.line "X-1" "closed" None])
             NotifierState.empty
             (Scenario.issue "X-1" "open" None)
             (Scenario.issue "X-1" "in_progress" None)
             (Scenario.issue "X-1" "closed" None)
             "X-1" _ Hx2 _ _ _ _ _ _ _ (WorkStarted _) _)));
      try reflexivity; vm_compute; apply list_elem_of_here.
Defined.

End TransitionClaims.

Section AllCompleteFacts.

Import Watcher NotifierState.

Implicit Types (issue : Issue.t) (state : NotifierState.t)
  (cur todo : list Issue.t) (e : Event) (agent : string).

Lemma elem_of_closed_by_agent cur agent issue :
  issue ∈ closed_by_agent cur agent ↔
  issue ∈ cur ∧ Issue.get_assigned_agent issue = Some agent
  ∧ Issue.status issue = "closed".
Proof.
  unfold closed_by_agent. rewrite !list_elem_of_In, List.filter_In.
  rewrite andb_true_iff, bool_decide_eq_true, String.eqb_eq. tauto.
Qed.

Lemma completes_closed prevs issue :
  completes prevs issue = true → Issue.status issue = "closed".
Proof.
  unfold completes. destruct (prevs !! Issue.id issue); [|done].
  intros [H _]%andb_true_iff. by apply String.eqb_eq.
Qed.

Lemma classify_completes prevs issue :
  completes prevs issue = true → classify prevs issue = [Completed issue].
Proof.
  intros Hc. pose proof (completes_closed _ _ Hc) as Hcl.
  unfold classify, is_new, starts_work. rewrite Hc.
  unfold completes in Hc.
  destruct (prevs !! Issue.id issue); [|done].
  rewrite bool_decide_eq_false_2 by done. by rewrite Hcl.
Qed.

(** The all-complete notification of the loop body, spelled out. *)
Lemma all_complete_iff cur issue state agent closed :
  issue ∈ cur →
  AssigneeAllComplete agent closed ∈ all_complete cur issue state ↔
  completes (previous_issues state) issue = true
  ∧ Issue.get_assigned_agent issue = Some agent
  ∧ get_open_issues_for_assignee agent state ∖ {[Issue.id issue]} = ∅
  ∧ closed = closed_by_agent cur agent.
Proof.
  intros Hin. split.
  - intros (a & [= -> ->] & ?)%all_complete_event. tauto.
  - intros (Hc & Hagent & Hempty & ->).
    unfold all_complete. rewrite Hc, Hagent.
    rewrite decide_True by done.
    assert (issue ∈ closed_by_agent cur agent) as Hmem.
    { apply elem_of_closed_by_agent. eauto using completes_closed. }
    destruct (closed_by_agent cur agent); [by apply elem_of_nil in Hmem|].
    apply list_elem_of_here.
Qed.

Lemma all_complete_not_classified prevs issue agent closed :
  AssigneeAllComplete agent closed ∉ classify prevs issue.
Proof. by intros ?%classify_status_event. Qed.

End AllCompleteFacts.

Section AllCompleteScenario.

Import Watcher NotifierState.

Implicit Types (issue : Issue.t) (state : NotifierState.t)
  (cur todo : list Issue.t) (e : Event) (agent : string).

Lemma process_changes_events store state :
  (process_changes store state).1
  = (process_loop (parse_issues_jsonl store) (parse_issues_jsonl store)
       state).1.
Proof. unfold process_changes. by destruct (process_loop _ _ _). Qed.

Lemma process_changes_state store state :
  (process_changes store state).2
  = NotifierState.mk
      (snapshot_all (parse_issues_jsonl store))
      (assignee_issues
         (process_loop (parse_issues_jsonl store) (parse_issues_jsonl store)
            state).2).
Proof. unfold process_changes. by destruct (process_loop _ _ _). Qed.

(** The outstanding set of an agent after a tracking update. *)
Lemma update_open issue state agent :
  get_open_issues_for_assignee agent
    (update_assignee_tracking issue None state)
  = let tracked := get_open_issues_for_assignee agent state in
    if decide (Issue.get_assigned_agent issue = Some agent) then
      if String.eqb (Issue.status issue) "closed"
      then tracked ∖ {[Issue.id issue]}
      else if String.eqb (Issue.status issue) "open"
              || String.eqb (Issue.status issue) "in_progress"
      then tracked ∪ {[Issue.id issue]}
      else tracked
    else tracked.
Proof.
  cbn zeta. unfold update_assignee_tracking, get_open_issues_for_assignee.
  destruct (Issue.get_assigned_agent issue) as [a|] eqn:Hagent.
  2:{ by rewrite decide_False. }
  destruct (decide (Some a = Some agent)) as [[= ->]|Hne].
  - destruct (assignee_issues state !! agent) as [tracked|] eqn:Hlook; cbn;
      repeat (match goal with
              | |- context [if ?b then _ else _] => destruct b
              end); cbn; rewrite ?lookup_insert_eq, ?Hlook; done.
  - assert (a ≠ agent) by congruence.
    destruct (assignee_issues state !! a) as [tracked|] eqn:Hlook; cbn;
      repeat (match goal with
              | |- context [if ?b then _ else _] => destruct b
              end); cbn; rewrite ?lookup_insert_ne by done; done.
Qed.

(** With agent [a] holding exactly [x1] and [y1], closing [x1] notifies
    its completion alone; closing [y1] in the next scan notifies its
    completion and then that [a] has completed all work. *)
Lemma closing_one_then_the_other
    s2 s3 state (a : string) (x1 y1 y2 : Issue.t) px py :
  parse_issues_jsonl s2 = [x1; y1] →
  parse_issues_jsonl s3 = [x1; y2] →
  Issue.id y2 = Issue.id y1 →
  Issue.get_assigned_agent x1 = Some a →
  Issue.get_assigned_agent y1 = Some a →
  Issue.get_assigned_agent y2 = Some a →
  get_open_issues_for_assignee a state = {[Issue.id x1; Issue.id y1]} →
  previous_issues state !! Issue.id x1 = Some px →
  rec_status px ≠ "closed" →
  previous_issues state !! Issue.id y1 = Some py →
  rec_status py = Issue.status y1 →
  Issue.status y1 ≠ "closed" →
  Issue.status x1 = "closed" →
  Issue.status y2 = "closed" →
  (process_changes s2 state).1 = [Completed x1]
  ∧ (process_changes s3 (process_changes s2 state).2).1
    = [Completed y2; AssigneeAllComplete a [x1; y2]].
Proof.
  intros Hs2 Hs3 Hid Hax Hay Hay2 Hopen Hpx Hpxs Hpy Hpys Hys Hxs Hy2s.
  assert (Issue.id x1 ≠ Issue.id y1) as Hne.
  { pose proof (parse_NoDup s2) as Hnd. rewrite Hs2 in Hnd. cbn in Hnd.
    apply NoDup_cons in Hnd as [Hnd _]. set_solver. }
  apply String.eqb_neq in Hpxs as Hpxb, Hys as Hyb.
  (* the second scan *)
  set (st1 := (process_issue [x1; y1] x1 state).2).
  set (st2 := (process_issue [x1; y1] y1 st1).2).
  assert (previous_issues st1 = previous_issues state) as Hprev1
    by apply process_issue_previous.
  assert (get_open_issues_for_assignee a st1 = {[Issue.id y1]}) as Hopen1.
  { subst st1. rewrite process_issue_state. unfold touched.
    rewrite Hpx, Hxs. rewrite (proj2 (String.eqb_neq _ _) Hpxs). cbn.
    rewrite update_open. cbn zeta. rewrite decide_True by done.
    rewrite Hxs, Hopen. cbn. apply set_eq. intros k. set_unfold.
    split; [intros [[->| ->] ?]; done | intros ->; auto]. }
  assert (get_open_issues_for_assignee a st2 = {[Issue.id y1]}) as Hopen2.
  { subst st2. rewrite process_issue_state.
    destruct (touched _ _); [|done].
    rewrite update_open. cbn zeta. rewrite decide_True by done.
    rewrite Hyb, Hopen1. destruct (_ || _); [|done].
    apply set_eq. intros k. set_unfold. tauto. }
  assert ((process_changes s2 state).1 = [Completed x1]) as Hev2.
  { rewrite process_changes_events, Hs2.
    rewrite !process_loop_cons. cbn [process_loop fst snd].
    rewrite !process_issue_events. fold st1. rewrite Hprev1.
    rewrite (classify_completes _ x1)
      by (unfold completes; rewrite Hpx, Hxs, Hpxb; done).
    unfold all_complete at 1. unfold completes at 1.
    rewrite Hpx, Hxs, Hpxb, Hax. cbn.
    rewrite Hopen. rewrite decide_False.
    2:{ intros Hempty. apply (f_equal (λ X, bool_decide (Issue.id y1 ∈ X)))
          in Hempty.
        rewrite bool_decide_eq_true_2 in Hempty by set_solver.
        by rewrite bool_decide_eq_false_2 in Hempty by set_solver. }
    unfold classify, all_complete, is_new, starts_work, completes.
    rewrite Hprev1, Hpy, Hpys, Hyb. rewrite bool_decide_eq_false_2 by done.
    destruct (String.eqb (Issue.status y1) "in_progress"); done. }
  split; [exact Hev2|].
  (* the third scan *)
  set (S2 := (process_changes s2 state).2).
  assert (previous_issues S2 !! Issue.id x1 = Some (snapshot x1)) as Hq1.
  { apply scan_previous. rewrite Hs2. set_solver. }
  assert (previous_issues S2 !! Issue.id y1 = Some (snapshot y1)) as Hq2.
  { apply scan_previous. rewrite Hs2. set_solver. }
  assert (get_open_issues_for_assignee a S2 = {[Issue.id y1]}) as HopenS.
  { subst S2. rewrite process_changes_state, Hs2.
    rewrite !process_loop_cons. cbn [process_loop fst snd]. exact Hopen2. }
  rewrite process_changes_events, Hs3.
  rewrite !process_loop_cons. cbn [process_loop fst snd].
  rewrite (quiet_issue _ x1 S2 Hq1). cbn [fst snd app].
  rewrite process_issue_events, app_nil_r.
  assert (completes (previous_issues S2) y2 = true) as Hc.
  { unfold completes. rewrite Hid, Hq2, Hy2s. cbn. by rewrite Hyb. }
  rewrite (classify_completes _ _ Hc).
  unfold all_complete. rewrite Hc, Hay2, HopenS, Hid.
  rewrite decide_True by (apply set_eq; intros k; set_unfold; tauto).
  unfold closed_by_agent. cbn [List.filter].
  rewrite Hax, Hay2, Hxs, Hy2s.
  by rewrite bool_decide_eq_true_2.
Qed.

End AllCompleteScenario.

Section AllCompleteClaims.

Import Watcher NotifierState.

Lemma all_complete_eq cur issue state agent :
  issue ∈ cur →
  completes (previous_issues state) issue = true →
  Issue.get_assigned_agent issue = Some agent →
  get_open_issues_for_assignee agent state ∖ {[Issue.id issue]} = ∅ →
  all_complete cur issue state
  = [AssigneeAllComplete agent (closed_by_agent cur agent)].
Proof.
  intros Hin Hc Hagent Hempty.
  assert (AssigneeAllComplete agent (closed_by_agent cur agent)
          ∈ all_complete cur issue state) as Hmem
    by (by apply all_complete_iff).
  unfold all_complete in *. rewrite Hc, Hagent in *.
  rewrite decide_True in * by done.
  destruct (closed_by_agent cur agent); [by apply elem_of_nil in Hmem|done].
Qed.

(** C7. In a scan, AssigneeAllComplete(agent, list) fires iff some item of
    the store completes (its id is in the snapshot and its status became
    [closed]), [agent] is its resolved agent, and the outstanding set of
    [agent], as it stands when the item is reached and with the item taken
    out, is empty; the list is then every current item whose resolved
    agent is [agent] and whose status is [closed]; it is never empty; and
    the Completed notification of the item comes right before it. With [a]
    holding exactly X and Y, closing X fires Completed alone and closing Y
    in the next scan fires Completed and then AssigneeAllComplete(a,
    [X; Y]). *)
Theorem assignee_all_complete :
  (∀ store state agent closed,
     let cur := parse_issues_jsonl store in
     AssigneeAllComplete agent closed ∈ (process_changes store state).1 ↔
     ∃ before issue after,
       cur = before ++ issue :: after
       ∧ completes (previous_issues state) issue = true
       ∧ Issue.get_assigned_agent issue = Some agent
       ∧ get_open_issues_for_assignee agent (process_loop cur before state).2
         ∖ {[Issue.id issue]} = ∅
       ∧ closed = closed_by_agent cur agent)
  ∧ (∀ cur agent issue,
       issue ∈ closed_by_agent cur agent ↔
       issue ∈ cur ∧ Issue.get_assigned_agent issue = Some agent
       ∧ Issue.status issue = "closed")
  ∧ (∀ store state agent,
       AssigneeAllComplete agent [] ∉ (process_changes store state).1)
  ∧ (∀ store state agent closed,
       AssigneeAllComplete agent closed ∈ (process_changes store state).1 →
       ∃ issue earlier later,
         (process_changes store state).1
         = earlier ++ Completed issue :: AssigneeAllComplete agent closed
                   :: later
         ∧ Issue.get_assigned_agent issue = Some agent)
  ∧ (∀ s2 s3 state (a : string) (x1 y1 y2 : Issue.t) px py,
       parse_issues_jsonl s2 = [x1; y1] →
       parse_issues_jsonl s3 = [x1; y2] →
       Issue.id y2 = Issue.id y1 →
       Issue.get_assigned_agent x1 = Some a →
       Issue.get_assigned_agent y1 = Some a →
       Issue.get_assigned_agent y2 = Some a →
       get_open_issues_for_assignee a state = {[Issue.id x1; Issue.id y1]} →
       previous_issues state !! Issue.id x1 = Some px →
       rec_status px ≠ "closed" →
       previous_issues state !! Issue.id y1 = Some py →
       rec_status py = Issue.status y1 →
       Issue.status y1 ≠ "closed" →
       Issue.status x1 = "closed" →
       Issue.status y2 = "closed" →
       (process_changes s2 state).1 = [Completed x1]
       ∧ (process_changes s3 (process_changes s2 state).2).1
         = [Completed y2; AssigneeAllComplete a [x1; y2]]).
Proof.
  assert (∀ store state agent closed,
            AssigneeAllComplete agent closed ∈ (process_changes store state).1 ↔
            ∃ before issue after,
              parse_issues_jsonl store = before ++ issue :: after
              ∧ completes (previous_issues state) issue = true
              ∧ Issue.get_assigned_agent issue = Some agent
              ∧ get_open_issues_for_assignee agent
                  (process_loop (parse_issues_jsonl store) before state).2
                ∖ {[Issue.id issue]} = ∅
              ∧ closed = closed_by_agent (parse_issues_jsonl store) agent)
    as Hiff.
  { intros store state agent closed.
    rewrite process_changes_events, process_loop_event.
    split; intros (before & issue & after & Hcur & H);
      exists before, issue, after; (split; [done|]);
      assert (issue ∈ parse_issues_jsonl store) as Hin
        by (rewrite Hcur; set_solver).
    - rewrite process_issue_events in H.
      apply elem_of_app in H as [H|H];
        [by apply all_complete_not_classified in H|].
      apply all_complete_iff in H; [|done].
      by rewrite process_loop_previous in H.
    - rewrite process_issue_events. apply elem_of_app. right.
      apply all_complete_iff; [done|]. by rewrite process_loop_previous. }
  split; [exact Hiff|].
  split; [apply elem_of_closed_by_agent|].
  split; [|split; [|apply closing_one_then_the_other]].
  - intros store state agent (before & issue & after & Hcur & Hc & Ha & _ & He)
           %Hiff.
    assert (issue ∈ closed_by_agent (parse_issues_jsonl store) agent) as Hmem.
    { apply elem_of_closed_by_agent. rewrite Hcur.
      split; [set_solver|]. eauto using completes_closed. }
    rewrite <- He in Hmem. by apply elem_of_nil in Hmem.
  - intros store state agent closed
           (before & issue & after & Hcur & Hc & Ha & Hempty & ->)%Hiff.
    set (cur := parse_issues_jsonl store) in *.
    exists issue, (process_loop cur before state).1,
      (process_loop cur after
         (process_issue cur issue (process_loop cur before state).2).2).1.
    split; [|done].
    rewrite process_changes_events. fold cur. rewrite Hcur at 2.
    rewrite process_loop_app, process_loop_cons. cbn [fst snd].
    rewrite process_issue_events.
    rewrite classify_completes by (by rewrite process_loop_previous).
    rewrite (all_complete_eq _ _ _ agent); try done.
    + rewrite Hcur. set_solver.
    + by rewrite process_loop_previous.
Qed.

End AllCompleteClaims.

Section AllCompleteWitness.

Import Watcher NotifierState.

Lemma assignee_all_complete_witness :
  let alice := Some "alice"%string in
  let state :=
    initial_load
      (Scenario.store [Scenario.line "X" "open" alice;
                       Scenario.line "Y" "in_progress" alice])
      NotifierState.empty in
  let s2 := Scenario.store [Scenario.line "X" "closed" alice;
                            Scenario.line "Y" "in_progress" alice] in
  let s3 := Scenario.store [Scenario.line "X" "closed" alice;
                            Scenario.line "Y" "closed" alice] in
  get_open_issues_for_assignee "alice" state = {["X"%string; "Y"%string]}
  ∧ (process_changes s2 state).1
    = [Completed (Scenario.issue "X" "closed" alice)]
  ∧ (process_changes s3 (process_changes s2 state).2).1
    = [Completed (Scenario.issue "Y" "closed" alice);
       AssigneeAllComplete "alice"
         [Scenario.issue "X" "closed" alice;
          Scenario.issue "Y" "closed" alice]].
Proof.
  cbn zeta.
  assert (get_open_issues_for_assignee "alice"
            (initial_load
               (Scenario.store [Scenario.line "X" "open" (Some "alice"%string);
                                Scenario.line "Y" "in_progress"
                                  (Some "alice"%string)])
               NotifierState.empty)
          = {["X"%string; "Y"%string]}) as Hopen by (by vm_compute).
  split; [exact Hopen|].
  apply (proj2 (proj2 (proj2 (proj2 assignee_all_complete)))
           _ _ _ "alice"
           (Scenario.issue "X" "closed" (Some "alice"%string))
           (Scenario.issue "Y" "in_progress" (Some "alice"%string))
           (Scenario.issue "Y" "closed" (Some "alice"%string))
           (snapshot (Scenario.issue "X" "open" (Some "alice"%string)))
           (snapshot (Scenario.issue "Y" "in_progress" (Some "alice"%string))));
    try exact Hopen; by vm_compute.
Defined.

End AllCompleteWitness.

(** ** The assignee index *)

Section IndexClaims.

Import Watcher NotifierState.

(** C1. An item that passes from one assignee to another stays in the set
    of the first: after a scan that sees X open for alice and a scan that
    sees X open for bob, X is in the sets of both. *)
Theorem assignee_change_keeps_old_entry :
  let final :=
    (scans [Scenario.store [Scenario.line "X" "open" (Some "alice"%string)];
            Scenario.store [Scenario.line "X" "open" (Some "bob"%string)]]
           NotifierState.empty).2 in
  get_open_issues_for_assignee "alice" final = {["X"%string]}
  ∧ get_open_issues_for_assignee "bob" final = {["X"%string]}
  ∧ ¬ single_assignee final.
Proof.
  cbn zeta. split; [by vm_compute|]. split; [by vm_compute|].
  intros Hsingle.
  assert ("alice" = "bob")%string as Heq; [|done].
  apply (Hsingle _ _ "X"%string); unfold tracks.
  - assert (get_open_issues_for_assignee "alice"
              (scans [Scenario.store
                        [Scenario.line "X" "open" (Some "alice"%string)];
                      Scenario.store
                        [Scenario.line "X" "open" (Some "bob"%string)]]
                 NotifierState.empty).2 = {["X"%string]}) as ->
      by (by vm_compute).
    set_solver.
  - assert (get_open_issues_for_assignee "bob"
              (scans [Scenario.store
                        [Scenario.line "X" "open" (Some "alice"%string)];
                      Scenario.store
                        [Scenario.line "X" "open" (Some "bob"%string)]]
                 NotifierState.empty).2 = {["X"%string]}) as ->
      by (by vm_compute).
    set_solver.
Qed.

End IndexClaims.

(** ** Sanitizing twice *)

Section DoubleSanitization.

Import SlackNotifier.





Lemma occurs_in_nonempty (c : ascii) (s : string) :
  occurs_in (String c "") s → s ≠ "".
Proof. intros (before & after & ->). by destruct before. Qed.

Lemma truncate_short (text : string) (n : Z) :
  Z.of_nat (String.length text) <= n → truncate text n = text.
Proof.
  intros Hlen. unfold truncate.
  destruct (Z.gtb_spec (Z.of_nat (String.length text)) n); [lia | done].
Qed.

(** A text that fits the bound is escaped as it is. *)
Lemma sanitize_short (text : string) (n : Z) :
  Z.of_nat (String.length text) <= n → sanitize_for_slack text n = escape text.
Proof.
  intros Hlen. destruct (decide (text = "")) as [->|Hne]; [done|].
  by rewrite sanitize_escape, truncate_short.
Qed.


Lemma has_markup_nonempty (s : string) : has_markup s = true → s ≠ "".
Proof. by destruct s. Qed.



(** Whatever is posted carries the sanitized form of the text handed to
    [send]. *)
Lemma send_posts_sanitized config rl now now' transport text blocks p :
  sent_posted (send config rl now now' transport text blocks) = Some p →
  payload_text p = sanitize_default text.
Proof.
  unfold send.
  destruct (negb (Text.truthy (Config.webhook_url config))); [done|].
  destruct (RateLimiter.allow now rl) as [[|] rl1]; cbn [negb].
  2:{ by destruct (RateLimiter.get_stats now' rl1). }
  destruct transport as [code| |msg]; [destruct (code =? 200)|..];
    by intros [= <-].
Qed.


End DoubleSanitization.

Section DoubleSanitizationFormatters.

Import SlackNotifier.

(** When the webhook is configured and the rate limiter admits the call,
    [send] posts, whatever the transport then answers, and the text of
    the body is the sanitized form of the text it was handed. *)
Lemma send_posts config rl now now' transport text blocks :
  can_post config rl now →
  payload_text <$> sent_posted (send config rl now now' transport text blocks)
  = Some (sanitize_default text).
Proof.
  intros [Hurl Hallowed]. unfold send. rewrite Hurl. cbn [negb].
  destruct (RateLimiter.allow now rl) as [allowed rl1]. cbn in Hallowed.
  subst allowed. cbn [negb].
  destruct transport as [code| |msg]; [destruct (code =? 200)|..]; done.
Qed.

Lemma formatter_delivered config rl now now' transport message text blocks :
  can_post config rl now →
  message = Some (text, blocks) →
  delivered config rl now now' transport message = Some (sanitize_default text).
Proof. intros Hcan ->. unfold delivered, deliver. by apply send_posts. Qed.


End DoubleSanitizationFormatters.

#[local] Arguments String.append : simpl never.

Section DoubleSanitizationFields.

Import SlackNotifier.





(** A formatter that is switched on returns a message. *)
Lemma notify_created_on config issue :
  Config.notify_created config = true →
  ∃ text blocks, notify_created config issue = Some (text, blocks).
Proof. intros Hon. unfold notify_created. rewrite Hon. cbn [negb]. eauto. Qed.




End DoubleSanitizationFields.

Section DoubleSanitizationClaims.

Import SlackNotifier.

(** The notification of the issue with the long title is posted. *)
Lemma long_titled_is_posted :
  can_post Scenario.configured RateLimiter.default 0
  ∧ is_Some (delivered Scenario.configured RateLimiter.default 0 0
               (Response 200)
               (notify_created Scenario.configured Scenario.long_titled)).
Proof.
  assert (can_post Scenario.configured RateLimiter.default 0) as Hcan
    by (by split).
  split; [exact Hcan|].
  destruct (notify_created_on Scenario.configured Scenario.long_titled eq_refl)
    as (text & blocks & Hmsg).
  rewrite (formatter_delivered _ _ _ _ _ _ text blocks Hcan Hmsg). by eexists.
Qed.




End DoubleSanitizationClaims.

(* ===================================================================== *)
(** * Part III: further properties of the code                            *)
(* ===================================================================== *)

#[local] Arguments String.append : simpl nomatch.

(** ** Display of a webhook *)

Section DisplayFacts.

Import Display.

Lemma length_drop (n : nat) (s : string) :
  String.length (Text.drop n s) = (String.length s - n)%nat.
Proof.
  revert s; induction n as [|n IH]; intros [|c s]; cbn; auto.
Qed.

Lemma length_last_chars (k : nat) (s : string) :
  (String.length (last_chars k s) <= k)%nat.
Proof. unfold last_chars. rewrite length_drop. lia. Qed.

Lemma occurs_in_length (p s : string) :
  occurs_in p s → (String.length p <= String.length s)%nat.
Proof. intros (before & after & ->). rewrite !length_append. lia. Qed.

Lemma split_char_plain (sep : ascii) (a : string) :
  SensitiveDataFilter.has_char sep a = false → split_char sep a = [a].
Proof.
  induction a as [|c a IH]; [done|]. cbn.
  intros [Hc Ha]%orb_false_elim. by rewrite Hc, IH.
Qed.

Lemma split_char_app (sep : ascii) (a b : string) :
  SensitiveDataFilter.has_char sep a = false →
  split_char sep (a +:+ String sep b) = a :: split_char sep b.
Proof.
  induction a as [|c a IH]; cbn.
  { intros _. by rewrite Ascii.eqb_refl. }
  intros [Hc Ha]%orb_false_elim. by rewrite Hc, IH.
Qed.

Lemma contains_app (p a s : string) :
  Text.startswith p s = true → Text.contains p (a +:+ s) = true.
Proof.
  intros Hp. induction a as [|c a IH]; cbn.
  { destruct s; cbn; by rewrite Hp. }
  rewrite IH. apply orb_true_r.
Qed.

End DisplayFacts.

Section DisplayProperties.

Import Display.

(** X1. The masked form of a webhook has at most 45 characters, so a
    webhook of more than 45 characters is never shown in full. *)
Theorem mask_url_hides_long (url : string) :
  (String.length (mask_url url) <= 45)%nat
  ∧ ((45 < String.length url)%nat → ¬ occurs_in url (mask_url url)).
Proof.
  assert (String.length (mask_url url) <= 45)%nat as Hlen.
  { unfold mask_url. destruct (negb (Text.truthy url)); [cbn; lia|].
    assert (String.length
              (if (20 <? String.length url)%nat
               then Text.take 20 url +:+ "..." else url) <= 45)%nat as Hshort.
    { destruct (Nat.ltb_spec 20 (String.length url)); [|lia].
      rewrite length_append, length_take. cbn [String.length]. lia. }
    destruct (Text.contains _ _); [|done].
    destruct (5 <=? _)%nat; [|done].
    rewrite !length_append, length_take.
    pose proof (length_last_chars 4 (from_end 1 (split_char "/" url))).
    cbn [String.length]. lia. }
  split; [done|]. intros Hlong Hocc%occurs_in_length. lia.
Qed.

Lemma mask_url_hides_long_witness :
  let url := "https://hooks.slack.com/services/T00000000/B00000000/XXXXXXXX"%string in
  (45 < String.length url)%nat ∧ ¬ occurs_in url (mask_url url).
Proof.
  cbn zeta.
  assert (45 < String.length
            "https://hooks.slack.com/services/T00000000/B00000000/XXXXXXXX")%nat
    as Hlong by (vm_compute; lia).
  split; [exact Hlong|]. exact (proj2 (mask_url_hides_long _) Hlong).
Defined.

(** X2. For a webhook of the standard shape, the prefix followed by three
    segments, the masked form shows the first four characters of the
    first segment and the last four of the last one, and nothing of the
    middle one. *)
Theorem mask_url_standard (team bot token : string) :
  SensitiveDataFilter.has_char "/" team = false →
  SensitiveDataFilter.has_char "/" bot = false →
  SensitiveDataFilter.has_char "/" token = false →
  mask_url ("https://hooks.slack.com/services/" +:+ team +:+ "/" +:+ bot
            +:+ "/" +:+ token)
  = ("https://hooks.slack.com/services/" +:+ Text.take 4 team +:+ ".../"
     +:+ last_chars 4 token)%string.
Proof.
  intros Hteam Hbot Htoken. unfold mask_url.
  set (rest := (team +:+ "/" +:+ bot +:+ "/" +:+ token)%string).
  assert (Text.contains "hooks.slack.com"
            ("https://hooks.slack.com/services/" +:+ rest) = true) as ->.
  { change ("https://hooks.slack.com/services/" +:+ rest)%string
      with ("https://" +:+ ("hooks.slack.com/services/" +:+ rest))%string.
    apply contains_app. by cbn. }
  assert (split_char "/" ("https://hooks.slack.com/services/" +:+ rest)
          = ["https:"; ""; "hooks.slack.com"; "services"; team; bot; token]%string)
    as ->.
  { change ("https://hooks.slack.com/services/" +:+ rest)%string
      with ("https:" +:+ String "/" ("" +:+ String "/"
              ("hooks.slack.com" +:+ String "/"
                 ("services" +:+ String "/" rest))))%string.
    rewrite !split_char_app by done. subst rest.
    change (team +:+ "/" +:+ bot +:+ "/" +:+ token)%string
      with (team +:+ String "/" (bot +:+ String "/" token))%string.
    rewrite !split_char_app by done. by rewrite split_char_plain. }
  done.
Qed.

Lemma mask_url_standard_witness :
  mask_url "https://hooks.slack.com/services/T01234567/B01234567/abcdefghijkl"
  = "https://hooks.slack.com/services/T012.../ijkl"%string.
Proof.
  exact (mask_url_standard "T01234567" "B01234567" "abcdefghijkl"
           eq_refl eq_refl eq_refl).
Defined.

End DisplayProperties.

(** ** More on the sanitizer and the log filter *)

Section SanitizerProperties.

Import SensitiveDataFilter.

Lemma escape_plain (t : string) :
  has_markup t = false → no_stripped_control t = true → escape t = t.
Proof.
  induction t as [|c t IH]; [done|].
  cbn [has_markup no_stripped_control escape].
  intros Hm [Hc Ht]%andb_true_iff.
  apply orb_false_elim in Hm as [Hm Hmt].
  apply orb_false_elim in Hm as [Hm Hgt].
  apply orb_false_elim in Hm as [Hamp Hlt].
  apply negb_true_iff in Hc.
  unfold escape_char. rewrite Hamp, Hlt, Hgt, Hc. cbn. by rewrite IH.
Qed.

(** X3. A text without markup and without stripped control characters
    that fits the bound comes back as it is, and sanitizing it again
    changes nothing. *)
Theorem sanitize_plain_text (t : string) (n : Z) :
  has_markup t = false →
  no_stripped_control t = true →
  Z.of_nat (String.length t) <= n →
  sanitize_for_slack t n = t
  ∧ sanitize_for_slack (sanitize_for_slack t n) n = sanitize_for_slack t n.
Proof.
  intros Hm Hc Hn.
  assert (sanitize_for_slack t n = t) as Hid
    by (by rewrite sanitize_short, escape_plain).
  by rewrite !Hid.
Qed.

Lemma sanitize_plain_text_witness :
  has_markup "Fix bug" = false
  ∧ no_stripped_control "Fix bug" = true
  ∧ Z.of_nat (String.length "Fix bug") <= 200
  ∧ sanitize_for_slack "Fix bug" 200 = "Fix bug".
Proof.
  split; [reflexivity|]. split; [reflexivity|].
  assert (Z.of_nat (String.length "Fix bug") <= 200) as Hn
    by (vm_compute; discriminate).
  split; [exact Hn|].
  exact (proj1 (sanitize_plain_text "Fix bug" 200 eq_refl eq_refl Hn)).
Defined.

Lemma sub_from_clean_id (repl s : string) :
  clean s → sub_from 0 repl s = s.
Proof.
  induction s as [|c s IH]; intros Hclean; [done|].
  cbn [sub_from]. rewrite (Hclean "" (String c s)) by done.
  f_equal. apply IH. intros before after ->.
  by apply (Hclean (String c before) after).
Qed.

(** X4. The log filter leaves a message in which the pattern matches
    nowhere as it is, and filtering a message twice is filtering it
    once. *)
Theorem filter_idempotent (msg : string) :
  (clean msg → filter msg = msg) ∧ filter (filter msg) = filter msg.
Proof.
  split; [apply sub_from_clean_id|].
  apply sub_from_clean_id, sub_from_clean.
Qed.

Lemma filter_idempotent_witness :
  clean "Slack API timeout" ∧ filter "Slack API timeout" = "Slack API timeout".
Proof.
  assert (clean "Slack API timeout") as Hclean.
  { intros before after Heq.
    do 18 (destruct before as [|? before];
           [cbn in Heq; subst after; reflexivity
           | cbn in Heq; try discriminate Heq; injection Heq as _ Heq]). }
  split; [exact Hclean|]. exact (proj1 (filter_idempotent _) Hclean).
Defined.

End SanitizerProperties.

(** ** More on the rate limiter *)

Section RateLimiterProperties.

Import RateLimiter.

Lemma prune_prune (t t' w : Z) (q : list Z) :
  t <= t' → prune t' w (prune t w q) = prune t' w q.
Proof.
  intros Hle. induction q as [|x q IH]; [done|].
  cbn [prune]. destruct (Z.ltb_spec x (t - w)) as [Hold|Hnew].
  - rewrite IH. destruct (Z.ltb_spec x (t' - w)); [done | lia].
  - done.
Qed.

(** X5. [get_stats] only prunes: it reports at least [max_requests]
    requests exactly when [allow] at the same instant refuses, and a call
    of it does not change what a later [allow] answers or leaves. *)
Theorem get_stats_transparent (rl : RateLimiter.t) (t t' : Z) :
  ((allow t rl).1 = false ↔
   max_requests rl <= requests_in_window (get_stats t rl).1)
  ∧ (t <= t' → allow t' (get_stats t rl).2 = allow t' rl)
  ∧ get_stats t (get_stats t rl).2 = get_stats t rl.
Proof.
  unfold allow, get_stats. cbn [fst snd requests window_seconds max_requests
                                 requests_in_window].
  split; [|split].
  - destruct (Z.geb_spec (Z.of_nat (length (prune t (window_seconds rl)
                                               (requests rl))))
                         (max_requests rl)); cbn; split; done || lia.
  - intros Hle. by rewrite prune_prune.
  - by rewrite prune_prune.
Qed.

Lemma get_stats_transparent_witness :
  0 <= 61 ∧ allow 61 (get_stats 0 (mk 1 60 [0])).2 = allow 61 (mk 1 60 [0]).
Proof.
  assert (0 <= 61) as Hle by lia.
  split; [exact Hle|].
  exact (proj1 (proj2 (get_stats_transparent (mk 1 60 [0]) 0 61)) Hle).
Defined.

Lemma allow_length (now : Z) (rl : RateLimiter.t) :
  Z.of_nat (length (requests rl)) <= Z.max 0 (max_requests rl) →
  Z.of_nat (length (requests (allow now rl).2)) <= Z.max 0 (max_requests rl)
  ∧ max_requests (allow now rl).2 = max_requests rl.
Proof.
  intros Hlen. unfold allow.
  pose proof (prune_length now (window_seconds rl) (requests rl)).
  destruct (Z.geb_spec
              (Z.of_nat (length (prune now (window_seconds rl) (requests rl))))
              (max_requests rl)); cbn; [lia|].
  rewrite length_app. cbn. lia.
Qed.

(** X6. Whatever the clock does, the deque of a limiter that started
    empty never holds more than [max_requests] timestamps. *)
Theorem requests_bounded (max w : Z) (nows : list Z) :
  Z.of_nat (length (requests (run nows (init max w)).2)) <= Z.max 0 max.
Proof.
  assert (∀ rl, Z.of_nat (length (requests rl)) <= Z.max 0 (max_requests rl) →
                Z.of_nat (length (requests (run nows rl).2))
                <= Z.max 0 (max_requests rl)) as Hgen.
  { induction nows as [|now nows IH]; intros rl Hlen; [done|].
    cbn [run]. destruct (allow_length now rl Hlen) as [Hlen' Hmax].
    destruct (allow now rl) as [b rl1]. cbn [snd] in *.
    rewrite <- Hmax in Hlen'.
    specialize (IH rl1 Hlen'). destruct (run nows rl1) as [bs rl2].
    cbn [snd] in *. by rewrite <- Hmax. }
  apply (Hgen (init max w)). cbn. lia.
Qed.

End RateLimiterProperties.

(** ** More on the delivery *)

Section SendProperties.

Import SlackNotifier.

(** X7. [send] returns [True] exactly when a webhook is configured, the
    rate limiter admits the call and the post answers 200; it posts
    exactly when a webhook is configured and the call is admitted; without
    a webhook it leaves the rate limiter as it was; and the text it posts
    has its markup escaped, no stripped control character and at most
    15000 characters. *)
Theorem send_outcome config rl now now' transport text blocks :
  let sent := send config rl now now' transport text blocks in
  (sent_ok sent = true ↔
   Text.truthy (Config.webhook_url config) = true
   ∧ (RateLimiter.allow now rl).1 = true
   ∧ transport = Response 200)
  ∧ (is_Some (sent_posted sent) ↔
     Text.truthy (Config.webhook_url config) = true
     ∧ (RateLimiter.allow now rl).1 = true)
  ∧ (Text.truthy (Config.webhook_url config) = false → sent_limiter sent = rl)
  ∧ (∀ p, sent_posted sent = Some p →
          well_escaped (payload_text p) = true
          ∧ no_stripped_control (payload_text p) = true
          ∧ Z.of_nat (String.length (payload_text p)) <= 15000).
Proof.
  cbn zeta.
  assert (∀ p, sent_posted (send config rl now now' transport text blocks)
               = Some p →
               well_escaped (payload_text p) = true
               ∧ no_stripped_control (payload_text p) = true
               ∧ Z.of_nat (String.length (payload_text p)) <= 15000) as Hposted.
  { intros p ->%send_posts_sanitized. unfold sanitize_default.
    destruct (decide (text = "")) as [->|Hne]; [cbn; repeat split; lia|].
    rewrite (sanitize_escape _ _ Hne).
    split; [apply well_escaped_escape|].
    split; [apply no_stripped_control_escape|].
    pose proof (length_escape (truncate text 3000)).
    pose proof (length_truncate text 3000 ltac:(lia)). lia. }
  split; [|split; [|split; [|exact Hposted]]]; clear Hposted; unfold send.
  - destruct (Text.truthy (Config.webhook_url config)); cbn [negb].
    2:{ cbn. split; [done | by intros []]. }
    destruct (RateLimiter.allow now rl) as [[|] rl1]; cbn [negb fst].
    2:{ destruct (RateLimiter.get_stats now' rl1). cbn.
        split; [done | by intros (_ & ? & _)]. }
    destruct transport as [code| |msg]; [destruct (Z.eqb_spec code 200)|..];
      cbn; split; try done.
    + by subst.
    + intros (_ & _ & [= ?]). done.
    + by intros (_ & _ & ?).
    + by intros (_ & _ & ?).
  - destruct (Text.truthy (Config.webhook_url config)); cbn [negb].
    2:{ cbn. split; [by intros [? ?] | by intros []]. }
    destruct (RateLimiter.allow now rl) as [[|] rl1]; cbn [negb fst].
    2:{ destruct (RateLimiter.get_stats now' rl1). cbn.
        split; [by intros [? ?] | by intros []]. }
    destruct transport as [code| |msg]; [destruct (code =? 200)|..]; cbn;
      split; try done; by eexists.
  - by intros ->.
Qed.

End SendProperties.

Section SendWitness.

Import SlackNotifier.

Lemma send_outcome_witness :
  let config :=
    Config.with_webhook_url "https://hooks.slack.com/services/T/B/X"
                            Config.defaults in
  let sent :=
    send config RateLimiter.default 0 0 (Response 200) "a < b" [] in
  sent_ok sent = true
  ∧ sent_posted sent = Some (mk_payload "a &lt; b" None None)
  ∧ well_escaped "a &lt; b" = true
  ∧ Text.truthy (Config.webhook_url Config.defaults) = false
  ∧ sent_limiter (send Config.defaults RateLimiter.default 0 0 (Response 200)
                       "a < b" [])
    = RateLimiter.default.
Proof.
  cbn zeta.
  set (config := Config.with_webhook_url
                   "https://hooks.slack.com/services/T/B/X" Config.defaults).
  assert (sent_posted (send config RateLimiter.default 0 0 (Response 200)
                            "a < b" [])
          = Some (mk_payload "a &lt; b" None None)) as Hposted
    by (by vm_compute).
  split.
  { apply (proj1 (send_outcome config RateLimiter.default 0 0 (Response 200)
                    "a < b" [])).
    by vm_compute. }
  split; [exact Hposted|]. split.
  { exact (proj1 (proj2 (proj2 (proj2
             (send_outcome config RateLimiter.default 0 0 (Response 200)
                "a < b" []))) _ Hposted)). }
  split; [reflexivity|].
  exact (proj1 (proj2 (proj2
           (send_outcome Config.defaults RateLimiter.default 0 0
              (Response 200) "a < b" []))) eq_refl).
Defined.

End SendWitness.

(** ** Successive notifications *)

Section DispatchProperties.

Import SlackNotifier RateLimiter Dispatch.

Lemma limiter_inv_later rl history t0 t :
  limiter_inv rl history t0 → t0 <= t → limiter_inv rl history t.
Proof.
  intros ((dropped & Hhist & Hold) & Hlen & Hwin) Hle.
  split; [|done]. exists dropped. split; [done|].
  eapply Forall_impl; [exact Hold|]. cbn. intros; lia.
Qed.

Lemma get_stats_inv rl history t0 t :
  limiter_inv rl history t0 → t0 <= t →
  limiter_inv (get_stats t rl).2 history t.
Proof.
  intros ((dropped & Hhist & Hold) & Hlen & Hwin) Hle.
  destruct (prune_split t (window_seconds rl) (requests rl))
    as (dropped' & Hq & Hold').
  pose proof (prune_length t (window_seconds rl) (requests rl)).
  unfold get_stats, limiter_inv. cbn [snd requests window_seconds max_requests].
  split; [|split; [lia | done]].
  exists (dropped ++ dropped'). split.
  - rewrite Hhist. rewrite Hq at 1. by rewrite app_assoc.
  - apply Forall_app. split; [|done].
    eapply Forall_impl; [exact Hold|]. cbn. intros; lia.
Qed.

Lemma get_stats_params t rl :
  max_requests (get_stats t rl).2 = max_requests rl
  ∧ window_seconds (get_stats t rl).2 = window_seconds rl.
Proof. done. Qed.

(** One call of [send] keeps what the limiter guarantees, the history
    growing by the call when it posts. *)
Lemma send_inv config rl now now' transport text blocks history t0 :
  limiter_inv rl history t0 → t0 <= now → now <= now' →
  let sent := send config rl now now' transport text blocks in
  limiter_inv (sent_limiter sent)
    (history ++ match sent_posted sent with Some _ => [now] | None => [] end)
    now'
  ∧ max_requests (sent_limiter sent) = max_requests rl
  ∧ window_seconds (sent_limiter sent) = window_seconds rl.
Proof.
  intros Hinv Hle Hle'. cbn zeta. unfold send.
  destruct (negb (Text.truthy (Config.webhook_url config))).
  { cbn. rewrite app_nil_r. split; [|done].
    apply (limiter_inv_later _ _ t0); [done | lia]. }
  pose proof (allow_inv now rl history t0 Hinv Hle) as Hstep.
  destruct (allow_params now rl) as [Hmax Hw].
  destruct (allow now rl) as [[|] rl1]; cbn [negb fst snd] in *.
  - assert (limiter_inv rl1 (history ++ [now]) now') as Hinv'
      by (by apply (limiter_inv_later _ _ now)).
    destruct transport as [code| |msg]; [destruct (code =? 200)|..]; by cbn.
  - pose proof (get_stats_inv rl1 history now now' Hstep Hle') as Hinv'.
    destruct (get_stats_params now' rl1) as [Hmax' Hw'].
    destruct (get_stats now' rl1) as [stats rl2]. cbn [snd] in *. cbn.
    rewrite app_nil_r. split; [done|]. split; congruence.
Qed.

Lemma send_all_inv config (calls : list call) : ∀ rl history t0,
  limiter_inv rl history t0 → in_order t0 calls →
  ∀ lo, Z.of_nat (count_in_window lo (window_seconds rl)
                    (history ++ posted_at calls (send_all config calls rl)))
        <= Z.max 0 (max_requests rl).
Proof.
  induction calls as [|c calls IH]; intros rl history t0 Hinv Horder lo.
  { cbn. rewrite app_nil_r. apply Hinv. }
  destruct Horder as (Hle & Hle' & Horder).
  destruct (send_inv config rl (call_now c) (call_now' c) (call_transport c)
              (call_text c) (call_blocks c) history t0 Hinv Hle Hle')
    as (Hinv' & Hmax & Hw).
  cbn [send_all posted_at].
  set (sent := send config rl (call_now c) (call_now' c) (call_transport c)
                 (call_text c) (call_blocks c)) in *.
  specialize (IH (sent_limiter sent) _ (call_now' c) Hinv' Horder lo).
  rewrite Hmax, Hw in IH.
  destruct (sent_posted sent); [by rewrite <- app_assoc in IH|].
  by rewrite app_nil_r in IH.
Qed.

(** X8. Under a clock that does not run backwards, the calls of [send] of
    one notifier that post, whatever the transport answers, never number
    more than [max_requests] in any window [[lo, lo + window_seconds]]:
    with the defaults, at most 30 posts in 60 seconds. *)
Theorem posts_within_window config (calls : list call) (max w t0 lo : Z) :
  0 <= max → in_order t0 calls →
  Z.of_nat (count_in_window lo w
              (posted_at calls (send_all config calls (init max w))))
  <= max.
Proof.
  intros Hmax Horder.
  assert (limiter_inv (init max w) [] t0) as Hinv.
  { split; [by exists []|]. split; cbn; [lia|]. intros; cbn. lia. }
  pose proof (send_all_inv config calls _ _ _ Hinv Horder lo) as H.
  cbn [app init window_seconds max_requests] in H. lia.
Qed.

Lemma posts_within_window_witness :
  let config :=
    Config.with_webhook_url "https://hooks.slack.com/services/T/B/X"
                            Config.defaults in
  let calls :=
    [mk_call 0 0 (Response 200) "one" [];
     mk_call 1 1 Timeout "two" [];
     mk_call 2 2 (Response 200) "three" []] in
  0 <= 2 ∧ in_order 0 calls
  ∧ posted_at calls (send_all config calls (init 2 60)) = [0; 1]
  ∧ Z.of_nat (count_in_window 0 60
                (posted_at calls (send_all config calls (init 2 60)))) <= 2.
Proof.
  cbn zeta.
  set (calls := [mk_call 0 0 (Response 200) "one" [];
                 mk_call 1 1 Timeout "two" [];
                 mk_call 2 2 (Response 200) "three" []]).
  assert (in_order 0 calls) as Horder by (cbn; lia).
  split; [lia|]. split; [exact Horder|]. split; [by vm_compute|].
  apply (posts_within_window _ calls 2 60 0 0); [lia | exact Horder].
Defined.

End DispatchProperties.

(** ** Configuration checks and resolution *)

Section CheckProperties.

Import Config Check SlackNotifier.

(** X9. A one-shot message has a notifier of its own, so the rate limiter
    never refuses it: [send_slack_message] returns [True] exactly when the
    webhook is not empty and the post answers 200, and it posts whenever
    the webhook is not empty. *)
Theorem send_slack_message_never_limited webhook_url now now' transport text
    blocks :
  let sent := send_slack_message webhook_url now now' transport text blocks in
  (sent_ok sent = true ↔
   Text.truthy webhook_url = true ∧ transport = Response 200)
  ∧ (is_Some (sent_posted sent) ↔ Text.truthy webhook_url = true).
Proof.
  cbn zeta. unfold send_slack_message.
  pose proof (send_outcome (with_webhook_url webhook_url defaults)
                RateLimiter.default now now' transport text blocks)
    as (Hok & Hposted & _).
  cbn zeta in Hok, Hposted. rewrite Hok, Hposted. cbn. tauto.
Qed.

(** X10. With neither a secrets file nor a config file, [check_config] of
    the daemon fails whatever the environment holds, although
    [SlackConfig.load] then takes the webhook from [SLACK_WEBHOOK_URL];
    the [check] command of the CLI exits with 0 exactly when that
    variable is set and not empty. *)
Theorem check_without_files (env : gmap string string)
    (transport : Transport) :
  let w := mk_world Absent Absent env in
  check_config w transport = false
  ∧ webhook_url (load w) = getenv env "SLACK_WEBHOOK_URL"
  ∧ (cli_check w = 0 ↔ getenv env "SLACK_WEBHOOK_URL" ≠ ""%string).
Proof.
  cbn zeta. split; [done|]. split; [done|].
  unfold cli_check, get_webhook_url, getenv. cbn.
  destruct (env !! "SLACK_WEBHOOK_URL"%string) as [[|c url]|]; cbn; split;
    done.
Qed.

(** X11. When the config file exists and does not parse, [load] returns
    at once: the webhook is the one of the secrets file or empty, and
    [SLACK_WEBHOOK_URL] is not consulted, nor is it when a webhook was
    found before. When the config file parses or is missing, the webhook
    follows the order secrets file, config file, environment. *)
Theorem load_resolution (w : world) :
  (config_file w = Failing →
   load w = load (mk_world (secrets_file w) Failing ∅))
  ∧ (config_file w ≠ Failing →
     webhook_url (load w) = documented_precedence w)
  ∧ (∀ content,
       secrets_file w = Holds content →
       Text.strip content ≠ ""%string →
       webhook_url (load w) = Text.strip content).
Proof.
  split; [|split].
  - intros Hfail. unfold load. cbn. by rewrite Hfail.
  - apply load_precedence.
  - intros content Hs Hne.
    assert (Text.truthy (Text.strip content) = true) as Ht
      by (by destruct (Text.strip content)).
    unfold load. rewrite Hs, Ht.
    destruct (config_file w) as [| |d]; cbn; rewrite ?Ht; cbn; try done.
    destruct (default (NotifyOnDict ∅) (data_notify_on d)); cbn;
      by rewrite Ht.
Qed.

Lemma load_resolution_witness :
  let env : gmap string string :=
    {[ "SLACK_WEBHOOK_URL"%string := "https://example.org/hook"%string ]} in
  load (mk_world Absent Failing env) = defaults
  ∧ webhook_url (load (mk_world Absent Absent env)) = "https://example.org/hook"
  ∧ webhook_url (load (mk_world (Holds " s3cret ") Absent env)) = "s3cret".
Proof.
  cbn zeta.
  set (env := {[ "SLACK_WEBHOOK_URL"%string :=
                   "https://example.org/hook"%string ]} : gmap string string).
  split.
  { rewrite (proj1 (load_resolution (mk_world Absent Failing env)) eq_refl).
    reflexivity. }
  split.
  { rewrite (proj1 (proj2 (load_resolution (mk_world Absent Absent env))));
      [by vm_compute | done]. }
  apply (proj2 (proj2 (load_resolution
                         (mk_world (Holds " s3cret ") Absent env))) " s3cret ");
    [reflexivity | by vm_compute].
Defined.

(** X12. The placeholder that [init_secrets_file] writes is taken by
    [SlackConfig.load] as the webhook, whatever the config file and the
    environment hold, while [get_webhook_url] skips it as a comment and
    resolves as if there were no secrets file. *)
Theorem placeholder_secret (config : FileRead data)
    (env : gmap string string) :
  let w := mk_world (Holds Files.SECRET_PLACEHOLDER) config env in
  webhook_url (load w)
  = "# Paste your Slack webhook URL here (replace this line)"%string
  ∧ get_webhook_url w = get_webhook_url (mk_world Absent config env).
Proof.
  cbn zeta. split; [|done].
  unfold load. cbn [secrets_file config_file environ].
  change (Text.strip Files.SECRET_PLACEHOLDER)
    with "# Paste your Slack webhook URL here (replace this line)"%string.
  destruct config as [| |d]; cbn; try done.
  by destruct (default (NotifyOnDict ∅) (data_notify_on d)).
Qed.

End CheckProperties.

(** ** Files with restricted permissions *)

Section FilesProperties.

Import Files.

(** X13. [enforce_file_permissions] never creates a file and never
    touches its text; it reports a change only when the bits are then the
    required ones; where [chmod] succeeds the bits are the required ones
    afterwards; and a second call reports no change and changes
    nothing. *)
Theorem enforce_file_permissions_post (sys : os) (path : option file)
    (required : Z) :
  let r := enforce_file_permissions sys path required in
  (content <$> r.2 = content <$> path)
  ∧ (r.1 = true → mode <$> r.2 = Some required)
  ∧ (chmod_ok sys = true → is_Some path → mode <$> r.2 = Some required)
  ∧ enforce_file_permissions sys r.2 required = (false, r.2).
Proof.
  cbn zeta. unfold enforce_file_permissions.
  destruct path as [f|]; [|by repeat split; try intros [? ?]].
  destruct (Z.eqb_spec (mode f) required) as [Heq|Hne]; cbn.
  - repeat split; try done.
    + intros _ _. by rewrite Heq.
    + by rewrite (proj2 (Z.eqb_eq _ _) Heq).
  - destruct (chmod_ok sys) eqn:Hch; cbn.
    + rewrite Z.eqb_refl. by cbn.
    + rewrite (proj2 (Z.eqb_neq _ _) Hne). by cbn.
Qed.

Lemma enforce_file_permissions_post_witness :
  let sys := mk_os true true true 420 in
  let f := mk_file "secret" 420 in
  chmod_ok sys = true ∧ is_Some (Some f)
  ∧ enforce_file_permissions sys (Some f) REQUIRED_FILE_MODE
    = (true, Some (mk_file "secret" REQUIRED_FILE_MODE))
  ∧ mode <$> (enforce_file_permissions sys (Some f) REQUIRED_FILE_MODE).2
    = Some REQUIRED_FILE_MODE.
Proof.
  cbn zeta. split; [reflexivity|]. split; [by eexists|].
  split; [reflexivity|].
  apply (proj1 (proj2 (proj2 (enforce_file_permissions_post
           (mk_os true true true 420) (Some (mk_file "secret" 420))
           REQUIRED_FILE_MODE))));
    [reflexivity | by eexists].
Defined.

(** X14. [init_secrets_file] never changes the text of a secrets file
    that exists; when it succeeds where there was none, the file holds the
    placeholder with mode 0o600; it succeeds there as soon as the
    operating system lets the directory be made, the file be written and
    its mode be set; and running it again after a success succeeds and
    changes nothing. *)
Theorem init_secrets_file_post (sys : os) (s : secrets) :
  let r := init_secrets_file sys s in
  (∀ f, secrets_file s = Some f →
        content <$> secrets_file r.2 = Some (content f))
  ∧ (r.1 = true → secrets_file s = None →
     secrets_file r.2 = Some (mk_file SECRET_PLACEHOLDER REQUIRED_FILE_MODE))
  ∧ (secrets_file s = None →
     (is_Some (secrets_dir s) ∨ mkdir_ok sys = true) →
     write_ok sys = true → chmod_ok sys = true → r.1 = true)
  ∧ (r.1 = true → init_secrets_file sys r.2 = (true, r.2)).
Proof.
  cbn zeta. unfold init_secrets_file.
  destruct s as [dir file]. cbn [secrets_dir secrets_file].
  pose proof (enforce_file_permissions_post sys file REQUIRED_FILE_MODE)
    as (Hcontent & _ & _ & Hagain). cbn zeta in Hcontent, Hagain.
  destruct dir as [m|]; [|destruct (mkdir_ok sys) eqn:Hmk];
    (destruct file as [f|];
     [| destruct (write_ok sys) eqn:Hw; [destruct (chmod_ok sys) eqn:Hc|]]);
    cbn [fst snd secrets_dir secrets_file];
    repeat split; try done;
    try (by intros ? [= <-]);
    try (by intros [[? ?]|?]);
    try (intros f' [= <-]; exact Hcontent);
    try (intros _; destruct (enforce_file_permissions sys (Some f)
                               REQUIRED_FILE_MODE) as [ch [f'|]] eqn:He;
         cbn in *; [by rewrite Hagain | done]).
  all: try (intros _; by rewrite Hw, Hc; cbn; rewrite ?Z.eqb_refl).
  all: by intros _ [[? [=]]|[=]].
Qed.

Lemma init_secrets_file_post_witness :
  let sys := mk_os true true true 420 in
  let fresh := mk_secrets None None in
  init_secrets_file sys fresh
  = (true, mk_secrets (Some SECRETS_DIR_MODE)
             (Some (mk_file SECRET_PLACEHOLDER REQUIRED_FILE_MODE)))
  ∧ validate_secret_file (secrets_file (init_secrets_file sys fresh).2) = true
  ∧ content <$> secrets_file
       (init_secrets_file sys
          (mk_secrets (Some 448) (Some (mk_file "hook" 420)))).2
    = Some "hook"%string.
Proof.
  cbn zeta.
  pose proof (init_secrets_file_post (mk_os true true true 420)
                (mk_secrets None None)) as (_ & Hfresh & Hok & _).
  cbn zeta in Hfresh, Hok.
  assert ((init_secrets_file (mk_os true true true 420)
             (mk_secrets None None)).1 = true) as Htrue
    by (apply Hok; [reflexivity | by right | reflexivity | reflexivity]).
  specialize (Hfresh Htrue eq_refl).
  split; [reflexivity|]. split; [by rewrite Hfresh|].
  exact (proj1 (init_secrets_file_post (mk_os true true true 420)
                  (mk_secrets (Some 448) (Some (mk_file "hook" 420))))
           _ eq_refl).
Defined.

End FilesProperties.

Section SecretsManagerProperties.

Import SecretsManager.



End SecretsManagerProperties.

(** ** The state file and the start of the daemon *)

Section StateFileFacts.

Import Watcher NotifierState StateFile.

Lemma load_save (list_of : gset string → list string) (st : NotifierState.t) :
  (∀ X x, x ∈ list_of X ↔ x ∈ X) →
  load (Holds (save list_of st)) = st.
Proof.
  intros Hlist. destruct st as [prev idx]. unfold load, save. cbn.
  f_equal. rewrite <- map_fmap_compose.
  apply map_eq. intros k. rewrite lookup_fmap.
  destruct (idx !! k) as [X|]; cbn; [|done].
  f_equal. apply set_eq. intros x. rewrite elem_of_list_to_set. apply Hlist.
Qed.





Lemma initial_loop_known (todo : list Issue.t) : ∀ state,
  (∀ i, i ∈ todo → is_Some (previous_issues state !! Issue.id i)) →
  initial_loop todo state = state.
Proof.
  induction todo as [|x todo IH]; intros state Hall; [done|].
  cbn [initial_loop]. destruct (Hall x) as [p ->]; [by left|].
  apply IH. intros i Hi. apply Hall. by right.
Qed.

End StateFileFacts.

Section StateFileProperties.

Import Watcher NotifierState StateFile.

(** X16. Loading the file that [save] wrote gives the state back,
    whatever the order in which the sets were listed. When [open]
    raises, a later load sees the file as it was; when the dump raises
    after the file was opened, the file is cut short and a later load
    starts from the empty state, whatever was saved before. *)
Theorem state_file_round_trip (list_of : gset string → list string)
    (st : NotifierState.t) (disk : FileRead json) :
  (∀ X x, x ∈ list_of X ↔ x ∈ X) →
  load (save_to Written list_of st disk) = st
  ∧ load (save_to OpenRaises list_of st disk) = load disk
  ∧ load (save_to DumpRaises list_of st disk) = NotifierState.empty.
Proof. intros Hlist. split; [by apply load_save|done]. Qed.

Lemma state_file_round_trip_witness :
  let st := (process_changes
               (Scenario.store [Scenario.line "X-1" "open" (Some "ann")])
               NotifierState.empty).2 in
  (∀ (X : gset string) x, x ∈ elements X ↔ x ∈ X)
  ∧ load (save_to Written elements st Absent) = st.
Proof.
  cbn zeta.
  assert (∀ (X : gset string) x, x ∈ elements X ↔ x ∈ X) as Hlist
    by (intros X x; apply elem_of_elements).
  split; [exact Hlist|].
  exact (proj1 (state_file_round_trip elements _ Absent Hlist)).
Defined.

(** X17. A daemon that is stopped after a scan and started again on the
    unchanged store resumes with exactly the state it had saved. *)
Theorem restart_after_scan (list_of : gset string → list string)
    (store : Store) (state : NotifierState.t) (disk : FileRead json) :
  (∀ X x, x ∈ list_of X ↔ x ∈ X) →
  Daemon.startup
    (save_to Written list_of (process_changes store state).2 disk) store
  = (process_changes store state).2.
Proof.
  intros Hlist. unfold Daemon.startup, save_to. rewrite load_save by done.
  unfold initial_load. apply initial_loop_known.
  intros i Hi. rewrite scan_previous by done. by eexists.
Qed.

Lemma restart_after_scan_witness :
  let store := Scenario.store [Scenario.line "X-1" "open" (Some "ann")] in
  (∀ (X : gset string) x, x ∈ elements X ↔ x ∈ X)
  ∧ Daemon.startup
      (save_to Written elements (process_changes store NotifierState.empty).2
         Failing) store
    = (process_changes store NotifierState.empty).2.
Proof.
  cbn zeta.
  assert (∀ (X : gset string) x, x ∈ elements X ↔ x ∈ X) as Hlist
    by (intros X x; apply elem_of_elements).
  split; [exact Hlist|].
  exact (restart_after_scan elements _ NotifierState.empty Failing Hlist).
Defined.



End StateFileProperties.

Section DebounceProperties.

Import Watcher Daemon.

Lemma on_all_ignored (burst : list (fs_event * Z * Store)) (self : handler) :
  Forall (λ tr, is_file_modified tr.1.1 = false
                ∨ src_name tr.1.1 ≠ issues_name self
                ∨ tr.1.2 - last_process_time self < debounce_seconds self)
         burst →
  on_all burst self = (map (λ _, []) burst, self).
Proof.
  induction 1 as [|[[e t] s] burst Hhere _ IH]; [done|].
  cbn [on_all]. cbn in Hhere.
  assert (on_modified e t s self = ([], self)) as ->.
  { unfold on_modified.
    destruct (is_file_modified e); cbn; [|done].
    destruct (String.eqb_spec (src_name e) (issues_name self)); cbn; [|done].
    destruct (Z.ltb_spec (t - last_process_time self) (debounce_seconds self));
      [done|].
    destruct Hhere as [?|[?|?]]; [done|done|lia]. }
  by rewrite IH.
Qed.

(** X19. When a modification of the store file is accepted, the scan runs
    once on the store as it is then, and every event of the burst that
    follows within the debounce interval, like every event of another kind
    or about another file, runs no scan and leaves the handler as it is:
    what was written during the burst is not seen until a later event. *)
Theorem debounce_burst (self : handler) (event : fs_event) (now : Z)
    (store : Store) (burst : list (fs_event * Z * Store)) :
  is_file_modified event = true →
  src_name event = issues_name self →
  debounce_seconds self <= now - last_process_time self →
  Forall (λ tr, is_file_modified tr.1.1 = false
                ∨ src_name tr.1.1 ≠ issues_name self
                ∨ tr.1.2 - now < debounce_seconds self) burst →
  on_all ((event, now, store) :: burst) self
  = ((process_changes store (state self)).1 :: map (λ _, []) burst,
     mk_handler (issues_name self) (process_changes store (state self)).2
                now (debounce_seconds self)).
Proof.
  intros Hmod Hname Hdue Hburst. cbn [on_all]. unfold on_modified.
  rewrite Hmod, Hname, String.eqb_refl. cbn.
  rewrite (proj2 (Z.ltb_ge _ _) Hdue).
  destruct (process_changes store (state self)) as [events st1]. cbn.
  by rewrite on_all_ignored.
Qed.

Lemma debounce_burst_witness :
  let first := Scenario.store [Scenario.line "X-1" "open" None] in
  let later := Scenario.store [Scenario.line "X-1" "closed" None] in
  let self := mk_handler "issues.jsonl" NotifierState.empty 0 1000 in
  let event := mk_event true "issues.jsonl" in
  (on_all [(event, 5000, first); (event, 5400, later); (event, 5999, later)]
          self).1
  = [[Created (Scenario.issue "X-1" "open" None)]; []; []].
Proof.
  cbn zeta.
  rewrite (debounce_burst
             (mk_handler "issues.jsonl" NotifierState.empty 0 1000)
             (mk_event true "issues.jsonl") 5000
             (Scenario.store [Scenario.line "X-1" "open" None])
             [(mk_event true "issues.jsonl", 5400,
               Scenario.store [Scenario.line "X-1" "closed" None]);
              (mk_event true "issues.jsonl", 5999,
               Scenario.store [Scenario.line "X-1" "closed" None])]);
    [reflexivity | reflexivity | reflexivity | cbn; lia
    | repeat constructor; right; right; cbn; lia].
Defined.

End DebounceProperties.

(** ** The agent of an issue *)

Section AssigneeFacts.

Import Issue.












End AssigneeFacts.

Section AssigneeProperties.

Import Issue.



End AssigneeProperties.

(** ** Reading the store *)

Section ReadFacts.

Import Watcher.

Lemma dict_set_elem (issue : Issue.t) (issues : list Issue.t) :
  issue ∈ dict_set issue issues.
Proof.
  induction issues as [|other issues IH]; cbn; [by left|].
  destruct (String.eqb _ _); [by left | by right].
Qed.

Lemma dict_set_keeps (issue i : Issue.t) (issues : list Issue.t) :
  i ∈ issues → Issue.id i ≠ Issue.id issue → i ∈ dict_set issue issues.
Proof.
  intros Hin Hne. induction issues as [|other issues IH]; cbn.
  { by apply elem_of_nil in Hin. }
  apply elem_of_cons in Hin as [->|Hin].
  - rewrite (proj2 (String.eqb_neq _ _) Hne). by left.
  - destruct (String.eqb _ _); right; [done | by apply IH].
Qed.

Lemma dict_set_from (issue i : Issue.t) (issues : list Issue.t) :
  i ∈ dict_set issue issues → i = issue ∨ i ∈ issues.
Proof.
  induction issues as [|other issues IH]; cbn.
  { intros ->%list_elem_of_singleton. by left. }
  destruct (String.eqb _ _); rewrite !elem_of_cons; [tauto|].
  intros [->|Hin]; [tauto|]. destruct (IH Hin); tauto.
Qed.

Lemma read_lines_keeps (lines : list Line) : ∀ (acc : list Issue.t) i,
  i ∈ acc →
  Forall (λ l, ∀ d, l = Record_ d → Issue.id (Issue.from_dict d) ≠ Issue.id i)
         lines →
  i ∈ read_lines lines acc.
Proof.
  induction lines as [|[| | |d] lines IH]; intros acc i Hin Hlines; cbn;
    try done; apply Forall_cons in Hlines as [Hhere Hlines]; auto.
  apply IH; [|done]. apply dict_set_keeps; [done|].
  intros Heq. by apply (Hhere d).
Qed.

Lemma read_lines_from (lines : list Line) : ∀ (acc : list Issue.t) i,
  i ∈ read_lines lines acc →
  i ∈ acc ∨ ∃ d, Record_ d ∈ lines ∧ i = Issue.from_dict d.
Proof.
  induction lines as [|[| | |d] lines IH]; intros acc i; cbn; auto.
  - intros [?|(d & ? & ?)]%IH; [by left|].
    right. exists d. split; [by right|done].
  - intros [?|(d & ? & ?)]%IH; [by left|].
    right. exists d. split; [by right|done].
  - intros [[->|?]%dict_set_from|(d' & ? & ?)]%IH.
    + right. exists d. split; [by left|done].
    + by left.
    + right. exists d'. split; [by right|done].
Qed.

Lemma read_lines_cut (a b : list Line) : ∀ acc : list Issue.t,
  read_lines (a ++ NotAnObject :: b) acc = read_lines a acc.
Proof. induction a as [|[| | |d] a IH]; intros acc; cbn; auto. Qed.

Lemma read_lines_skip (lines : list Line) : ∀ acc : list Issue.t,
  read_lines
    (List.filter (λ l, match l with Blank | Malformed => false | _ => true end)
                 lines) acc
  = read_lines lines acc.
Proof. induction lines as [|[| | |d] lines IH]; intros acc; cbn; auto. Qed.

Lemma read_lines_reaches (a : list Line) : ∀ (b : list Line) acc,
  Forall (λ l, l ≠ NotAnObject) a →
  read_lines (a ++ b) acc = read_lines b (read_lines a acc).
Proof.
  induction a as [|[| | |d] a IH]; intros b acc Ha; cbn; try done;
    apply Forall_cons in Ha as [Hhere Ha]; auto.
  done.
Qed.

Lemma snapshot_fold_other (issues : list Issue.t) :
  ∀ (m : gmap string NotifierState.SnapshotRecord) k,
  k ∉ map Issue.id issues →
  fold_left (λ m issue, <[Issue.id issue := NotifierState.snapshot issue]> m)
            issues m !! k
  = m !! k.
Proof.
  induction issues as [|x issues IH]; intros m k Hk; [done|].
  cbn in Hk. apply not_elem_of_cons in Hk as [Hne Hk].
  cbn [fold_left]. rewrite IH by done. by rewrite lookup_insert_ne.
Qed.

End ReadFacts.

Section ReadProperties.

Import Watcher NotifierState.

(** X21. The issues read from the store have distinct ids and each one
    comes from a line that holds a JSON object. Blank lines, lines that
    are no JSON and a failure of the read after the last line change
    nothing; a line that holds JSON but no object ends the reading, the
    lines after it being ignored. *)
Theorem parse_issues_jsonl_lines (lines : list Line) (read_fails : bool) :
  NoDup (map Issue.id (parse_issues_jsonl (Opened lines read_fails)))
  ∧ (∀ i, i ∈ parse_issues_jsonl (Opened lines read_fails) →
          ∃ d, Record_ d ∈ lines ∧ i = Issue.from_dict d)
  ∧ parse_issues_jsonl (Opened lines read_fails)
    = parse_issues_jsonl
        (Opened (List.filter
                   (λ l, match l with Blank | Malformed => false | _ => true end)
                   lines) false)
  ∧ (∀ rest,
       parse_issues_jsonl (Opened (lines ++ NotAnObject :: rest) read_fails)
       = parse_issues_jsonl (Opened lines read_fails)).
Proof.
  split; [apply parse_NoDup|]. cbn [parse_issues_jsonl]. split; [|split].
  - intros i [Hin|Hd]%read_lines_from; [by apply elem_of_nil in Hin | done].
  - by rewrite read_lines_skip.
  - intros rest. apply read_lines_cut.
Qed.

Lemma parse_issues_jsonl_lines_witness :
  let lines := [Scenario.line "X-1" "open" None; Blank; Malformed] in
  Scenario.issue "X-1" "open" None
    ∈ parse_issues_jsonl (Opened lines true)
  ∧ ∃ d, Record_ d ∈ lines ∧ Scenario.issue "X-1" "open" None = Issue.from_dict d.
Proof.
  cbn zeta.
  assert (Scenario.issue "X-1" "open" None
            ∈ parse_issues_jsonl
                (Opened [Scenario.line "X-1" "open" None; Blank; Malformed]
                        true)) as Hin by (by left).
  split; [exact Hin|].
  exact (proj1 (proj2 (parse_issues_jsonl_lines
                         [Scenario.line "X-1" "open" None; Blank; Malformed]
                         true)) _ Hin).
Defined.

(** X22. When several lines carry the same id, the last one read decides:
    the issue of a line is in the result when no line before it ends the
    reading and no line after it carries its id. *)
Theorem parse_last_line_wins (before after : list Line) (d : Issue.dict)
    (read_fails : bool) :
  Forall (λ l, l ≠ NotAnObject) before →
  Forall (λ l, ∀ d', l = Record_ d' →
                     Issue.id (Issue.from_dict d') ≠ Issue.id (Issue.from_dict d))
         after →
  Issue.from_dict d
    ∈ parse_issues_jsonl (Opened (before ++ Record_ d :: after) read_fails).
Proof.
  intros Hbefore Hafter. cbn [parse_issues_jsonl].
  rewrite read_lines_reaches by done. cbn [read_lines].
  apply read_lines_keeps; [apply dict_set_elem | done].
Qed.

Lemma parse_last_line_wins_witness :
  parse_issues_jsonl
    (Opened [Scenario.line "X-1" "open" None; Malformed;
             Scenario.line "X-1" "closed" (Some "ann");
             Scenario.line "X-2" "open" None; NotAnObject;
             Scenario.line "X-1" "open" None] false)
  = [Scenario.issue "X-1" "closed" (Some "ann");
     Scenario.issue "X-2" "open" None]
  ∧ Scenario.issue "X-1" "closed" (Some "ann")
    ∈ parse_issues_jsonl
        (Opened ([Scenario.line "X-1" "open" None; Malformed]
                 ++ Scenario.line "X-1" "closed" (Some "ann")
                    :: [Scenario.line "X-2" "open" None; NotAnObject])
                false).
Proof.
  split; [reflexivity|].
  apply (parse_last_line_wins
           [Scenario.line "X-1" "open" None; Malformed]
           [Scenario.line "X-2" "open" None; NotAnObject]
           (Issue.mk_dict (Some "X-1"%string) (Some "Title of X-1"%string)
              (Some "closed"%string) None None None (Some "ann"%string)
              None None None None None) false).
  - repeat constructor; done.
  - repeat constructor; intros d' [= <-]; done.
Defined.

(** X23. After a scan the snapshot holds exactly the issues of the
    store, each with its own record: an issue that left the store is
    forgotten, and it is announced as created again when it comes
    back. *)
Theorem snapshot_after_scan (store : Store) (state : NotifierState.t) :
  let st := (process_changes store state).2 in
  (∀ x, x ∈ parse_issues_jsonl store →
        previous_issues st !! Issue.id x = Some (snapshot x))
  ∧ (∀ k, k ∉ map Issue.id (parse_issues_jsonl store) →
          previous_issues st !! k = None)
  ∧ (∀ store' x,
       x ∈ parse_issues_jsonl store' →
       Issue.id x ∉ map Issue.id (parse_issues_jsonl store) →
       Created x ∈ (process_changes store' st).1).
Proof.
  cbn zeta.
  assert (∀ k, k ∉ map Issue.id (parse_issues_jsonl store) →
            previous_issues (process_changes store state).2 !! k = None)
    as Hgone.
  { intros k Hk. unfold process_changes.
    destruct (process_loop _ _ _). cbn. unfold snapshot_all.
    by rewrite snapshot_fold_other. }
  split; [by apply scan_previous|]. split; [exact Hgone|].
  intros store' x Hx Hout.
  rewrite (status_events_iff _ _ (Issue.id x)) by done.
  exists x. split; [done|]. apply classify_created. auto.
Qed.

Lemma snapshot_after_scan_witness :
  let both := Scenario.store [Scenario.line "X-1" "open" None;
                              Scenario.line "X-2" "open" None] in
  let one := Scenario.store [Scenario.line "X-1" "open" None] in
  let st := (process_changes one (process_changes both NotifierState.empty).2).2 in
  Scenario.issue "X-2" "open" None ∈ parse_issues_jsonl both
  ∧ (Issue.id (Scenario.issue "X-2" "open" None)
       ∉ map Issue.id (parse_issues_jsonl one))
  ∧ Created (Scenario.issue "X-2" "open" None) ∈ (process_changes both st).1.
Proof.
  cbn zeta.
  assert (Scenario.issue "X-2" "open" None
            ∈ parse_issues_jsonl
                (Scenario.store [Scenario.line "X-1" "open" None;
                                 Scenario.line "X-2" "open" None])) as Hin
    by (right; left).
  assert (Issue.id (Scenario.issue "X-2" "open" None)
            ∉ map Issue.id
                (parse_issues_jsonl
                   (Scenario.store [Scenario.line "X-1" "open" None])))
    as Hout.
  { cbn. intros [=]%list_elem_of_singleton. }
  split; [exact Hin|]. split; [exact Hout|].
  exact (proj2 (proj2 (snapshot_after_scan
                         (Scenario.store [Scenario.line "X-1" "open" None])
                         _)) _ _ Hin Hout).
Defined.

End ReadProperties.

(** ** Scans and the assignee index *)

Section ScanFacts.

Import Watcher NotifierState.

Lemma untouched_issue (cur : list Issue.t) (issue : Issue.t)
    (state : NotifierState.t) :
  touched (previous_issues state) issue = false →
  process_issue cur issue state = ([], state).
Proof.
  intros Huntouched.
  rewrite (surjective_pairing (process_issue cur issue state)).
  rewrite process_issue_events, process_issue_state, Huntouched.
  unfold touched in Huntouched.
  unfold classify, all_complete, is_new, starts_work, completes.
  destruct (previous_issues state !! Issue.id issue) as [p|]; [|done].
  apply orb_false_iff in Huntouched as [Hstatus _].
  apply negb_false_iff, String.eqb_eq in Hstatus. rewrite Hstatus.
  rewrite bool_decide_eq_false_2 by done.
  by destruct (String.eqb (Issue.status issue) "in_progress"),
       (String.eqb (Issue.status issue) "closed").
Qed.

Lemma untouched_loop (cur todo : list Issue.t) (state : NotifierState.t) :
  (∀ x, x ∈ todo → touched (previous_issues state) x = false) →
  process_loop cur todo state = ([], state).
Proof.
  induction todo as [|issue todo IH]; intros Hall; [done|].
  cbn [process_loop]. rewrite untouched_issue by (apply Hall; left).
  rewrite IH; [done|]. intros i Hi. apply Hall. by right.
Qed.

Lemma fresh_loop (cur todo : list Issue.t) : ∀ state : NotifierState.t,
  previous_issues state = ∅ →
  (process_loop cur todo state).1 = map Created todo.
Proof.
  induction todo as [|issue todo IH]; intros state Hempty; [done|].
  rewrite process_loop_cons. cbn [fst map].
  rewrite process_issue_events, IH
    by (by rewrite process_issue_previous).
  unfold classify, all_complete, is_new, completes.
  by rewrite Hempty, lookup_empty.
Qed.

Lemma update_lookup_other (issue : Issue.t) (old : option string)
    (state : NotifierState.t) (agent : string) :
  Issue.get_assigned_agent issue ≠ Some agent →
  get_open_issues_for_assignee agent
    (update_assignee_tracking issue old state)
  = get_open_issues_for_assignee agent state.
Proof.
  intros Hother. unfold update_assignee_tracking, get_open_issues_for_assignee.
  destruct (Issue.get_assigned_agent issue) as [a|]; [|done].
  assert (a ≠ agent) as Hne by congruence.
  assert (default ∅
            (match assignee_issues state !! a with
             | Some _ => assignee_issues state
             | None => <[a:=∅]> (assignee_issues state)
             end !! agent)
          = default ∅ (assignee_issues state !! agent)) as Hindex.
  { destruct (assignee_issues state !! a); [done|].
    by rewrite lookup_insert_ne. }
  destruct (String.eqb _ _); [|destruct (_ || _)]; cbn;
    by rewrite ?lookup_insert_ne.
Qed.

Lemma update_lookup_agent (issue : Issue.t) (old : option string)
    (state : NotifierState.t) (agent : string) :
  Issue.get_assigned_agent issue = Some agent →
  get_open_issues_for_assignee agent
    (update_assignee_tracking issue old state)
  = if String.eqb (Issue.status issue) "closed"
    then get_open_issues_for_assignee agent state ∖ {[Issue.id issue]}
    else if String.eqb (Issue.status issue) "open"
            || String.eqb (Issue.status issue) "in_progress"
    then get_open_issues_for_assignee agent state ∪ {[Issue.id issue]}
    else get_open_issues_for_assignee agent state.
Proof.
  intros Hagent. unfold update_assignee_tracking, get_open_issues_for_assignee.
  rewrite Hagent.
  assert (default ∅
            (match assignee_issues state !! agent with
             | Some _ => assignee_issues state
             | None => <[agent:=∅]> (assignee_issues state)
             end !! agent)
          = default ∅ (assignee_issues state !! agent)) as Hindex.
  { destruct (assignee_issues state !! agent) eqn:Hlook; [by rewrite Hlook|].
    by rewrite lookup_insert_eq. }
  destruct (String.eqb _ _); [|destruct (_ || _)]; cbn;
    by rewrite ?lookup_insert_eq, ?Hindex.
Qed.

End ScanFacts.

Section ScanProperties.

Import Watcher NotifierState.

(** X24. A scan in which every issue of the store has the status and the
    [assignee] field of its record notifies nothing and leaves the
    assignee index as it was, whatever else changed: a new title, or a
    comment that assigns the issue to an agent. *)
Theorem untouched_scan_is_silent (store : Store) (state : NotifierState.t) :
  (∀ x, x ∈ parse_issues_jsonl store →
        touched (previous_issues state) x = false) →
  (process_changes store state).1 = []
  ∧ assignee_issues (process_changes store state).2 = assignee_issues state.
Proof.
  intros Hall. unfold process_changes. by rewrite untouched_loop.
Qed.

Lemma untouched_scan_is_silent_witness :
  let commented :=
    Scenario.store
      [Record_ (Issue.mk_dict (Some "X-1"%string) (Some "Renamed"%string)
                  (Some "open"%string) None None None None None None None None
                  (Some ["@assigned bob"%string]))] in
  let state :=
    (process_changes (Scenario.store [Scenario.line "X-1" "open" None])
                     NotifierState.empty).2 in
  (process_changes commented state).1 = []
  ∧ get_open_issues_for_assignee "bob" (process_changes commented state).2 = ∅.
Proof.
  cbn zeta.
  pose proof (untouched_scan_is_silent
    (Scenario.store
      [Record_ (Issue.mk_dict (Some "X-1"%string) (Some "Renamed"%string)
                  (Some "open"%string) None None None None None None None None
                  (Some ["@assigned bob"%string]))])
    (process_changes (Scenario.store [Scenario.line "X-1" "open" None])
                     NotifierState.empty).2) as Hsilent.
  destruct Hsilent as [Hevents Hindex].
  { intros x ->%list_elem_of_singleton. reflexivity. }
  split; [exact Hevents|].
  unfold get_open_issues_for_assignee. rewrite Hindex. reflexivity.
Defined.

(** X25. A tracking update leaves the snapshot alone and changes the
    index only for the agent of the issue and only at the id of the
    issue: the id leaves the set of the agent when the issue is closed,
    enters it when the issue is open or in progress, and stays as it was
    for any other status. *)
Theorem update_assignee_tracking_frame (issue : Issue.t)
    (old_status : option string) (state : NotifierState.t) :
  let st := update_assignee_tracking issue old_status state in
  previous_issues st = previous_issues state
  ∧ (∀ agent x,
       Issue.get_assigned_agent issue ≠ Some agent ∨ x ≠ Issue.id issue →
       (tracks st agent x ↔ tracks state agent x))
  ∧ (∀ agent,
       Issue.get_assigned_agent issue = Some agent →
       (Issue.status issue = "closed"%string →
        ¬ tracks st agent (Issue.id issue))
       ∧ (Issue.status issue = "open"%string
          ∨ Issue.status issue = "in_progress"%string →
          tracks st agent (Issue.id issue))
       ∧ (Issue.status issue ≠ "closed"%string →
          Issue.status issue ≠ "open"%string →
          Issue.status issue ≠ "in_progress"%string →
          (tracks st agent (Issue.id issue)
           ↔ tracks state agent (Issue.id issue)))).
Proof.
  cbn zeta. split; [apply update_previous|]. unfold tracks. split.
  - intros agent x Hframe.
    destruct (decide (Issue.get_assigned_agent issue = Some agent))
      as [Hagent|Hother].
    + destruct Hframe as [?|Hx]; [done|].
      rewrite (update_lookup_agent _ _ _ _ Hagent).
      destruct (String.eqb _ _); [|destruct (_ || _)]; set_solver.
    + by rewrite update_lookup_other.
  - intros agent Hagent. rewrite (update_lookup_agent _ _ _ _ Hagent).
    split; [|split].
    + intros ->. cbn. set_solver.
    + intros [-> | ->]; cbn; set_solver.
    + intros Hc Ho Hp.
      by rewrite (proj2 (String.eqb_neq _ _) Hc),
                 (proj2 (String.eqb_neq _ _) Ho),
                 (proj2 (String.eqb_neq _ _) Hp).
Qed.

Lemma update_assignee_tracking_frame_witness :
  let issue := Scenario.issue "X-1" "closed" (Some "ann") in
  let state :=
    (process_changes
       (Scenario.store [Scenario.line "X-1" "open" (Some "ann");
                        Scenario.line "X-2" "open" (Some "ann")])
       NotifierState.empty).2 in
  let st := update_assignee_tracking issue (Some "open"%string) state in
  ¬ tracks st "ann" "X-1" ∧ tracks st "ann" "X-2".
Proof.
  cbn zeta.
  pose proof (update_assignee_tracking_frame
    (Scenario.issue "X-1" "closed" (Some "ann")) (Some "open"%string)
    (process_changes
       (Scenario.store [Scenario.line "X-1" "open" (Some "ann");
                        Scenario.line "X-2" "open" (Some "ann")])
       NotifierState.empty).2) as (_ & Hframe & Hown).
  cbn zeta in Hframe, Hown. split.
  - exact (proj1 (Hown "ann"%string eq_refl) eq_refl).
  - apply Hframe; [right; done|].
    unfold tracks. vm_compute. set_solver.
Defined.

(** X26. A scan that starts from an empty snapshot announces every issue
    of the store as created, in the order of the store, and nothing
    else; this is the scan that follows one in which the store could not
    be read. *)
Theorem empty_snapshot_announces_all (store : Store)
    (state : NotifierState.t) :
  (previous_issues state = ∅ →
   (process_changes store state).1 = map Created (parse_issues_jsonl store))
  ∧ (∀ failed, unreadable failed →
       (process_changes store (process_changes failed state).2).1
       = map Created (parse_issues_jsonl store)).
Proof.
  assert (∀ st, previous_issues st = ∅ →
            (process_changes store st).1
            = map Created (parse_issues_jsonl store)) as Hfresh.
  { intros st Hempty. unfold process_changes.
    pose proof (fresh_loop (parse_issues_jsonl store)
                  (parse_issues_jsonl store) st Hempty) as Hloop.
    by destruct (process_loop _ _ _). }
  split; [apply Hfresh|].
  intros failed [-> | ->]; by apply Hfresh.
Qed.

Lemma empty_snapshot_announces_all_witness :
  let store := Scenario.store [Scenario.line "X-1" "closed" (Some "ann");
                               Scenario.line "X-2" "in_progress" None] in
  let state := (process_changes store NotifierState.empty).2 in
  unreadable OpenFails
  ∧ (process_changes store (process_changes OpenFails state).2).1
    = [Created (Scenario.issue "X-1" "closed" (Some "ann"));
       Created (Scenario.issue "X-2" "in_progress" None)].
Proof.
  cbn zeta.
  assert (unreadable OpenFails) as Hun by (by left).
  split; [exact Hun|].
  exact (proj2 (empty_snapshot_announces_all
                  (Scenario.store
                     [Scenario.line "X-1" "closed" (Some "ann");
                      Scenario.line "X-2" "in_progress" None])
                  (process_changes
                     (Scenario.store
                        [Scenario.line "X-1" "closed" (Some "ann");
                         Scenario.line "X-2" "in_progress" None])
                     NotifierState.empty).2) OpenFails Hun).
Defined.

End ScanProperties.
